(** * The timed download gate of the storefront (DownloadComponent)

    A shallow embedding of the React component [DownloadComponent]:
    the filename derivation of [startDownload], the delivery cascade of
    [startDownload] as a program in a small exception-and-trace monad, and
    the countdown [useEffect] as a transition system over the component
    state. *)

From Stdlib Require Import Ascii String.
From Stdlib Require Import List ZArith NArith Bool Lia.
From Stdlib Require Import DecimalString.
Import ListNotations.

Local Open Scope Z_scope.

(** ** JavaScript strings

    A JavaScript string is a sequence of UTF-16 code units; a regular
    expression without the [u] flag works on code units. *)

Module Js.

Definition jsstring := list N.

(** An ASCII literal as a JavaScript string. *)
Definition lit (s : string) : jsstring :=
  map N_of_ascii (list_ascii_of_string s).
Arguments lit s%_string.

Definition jsstring_eqb (a b : jsstring) : bool :=
  if list_eq_dec N.eq_dec a b then true else false.

(** Truthiness of a string value: only the empty string is falsy. *)
Definition truthy (s : jsstring) : bool :=
  match s with [] => false | _ :: _ => true end.

(** [a || b] on an optional string ([None] is [undefined]). *)
Definition or_else (a : option jsstring) (b : jsstring) : jsstring :=
  match a with
  | Some s => if truthy s then s else b
  | None => b
  end.

(** [Array.prototype.pop]'s result: the last element, [undefined] on []. *)
Fixpoint pop {A : Type} (l : list A) : option A :=
  match l with
  | [] => None
  | [x] => Some x
  | _ :: t => pop t
  end.

(** [s.split(sep)] for a separator of one code unit. *)
Fixpoint split (sep : N) (s : jsstring) : list jsstring :=
  match s with
  | [] => [[]]
  | c :: t =>
      if N.eqb c sep then [] :: split sep t
      else match split sep t with
           | seg :: segs => (c :: seg) :: segs
           | [] => [[c]]
           end
  end.

(** [s.includes(c)] for a needle of one code unit. *)
Definition includes (c : N) (s : jsstring) : bool :=
  existsb (N.eqb c) s.

Definition in_range (lo hi c : N) : bool := N.leb lo c && N.leb c hi.

(** The code units matched by [\s], which are also the ones [trim] strips:
    WhiteSpace and LineTerminator of ECMAScript. *)
Definition is_space (c : N) : bool :=
  in_range 9 13 c || N.eqb c 32 || N.eqb c 160 || N.eqb c 5760
  || in_range 8192 8202 c || N.eqb c 8232 || N.eqb c 8233
  || N.eqb c 8239 || N.eqb c 8287 || N.eqb c 12288 || N.eqb c 65279.

Fixpoint dropWhile {A : Type} (p : A -> bool) (l : list A) : list A :=
  match l with
  | [] => []
  | x :: t => if p x then dropWhile p t else l
  end.

Fixpoint takeWhile {A : Type} (p : A -> bool) (l : list A) : list A :=
  match l with
  | [] => []
  | x :: t => if p x then x :: takeWhile p t else []
  end.

(** [String.prototype.trim]. *)
Definition trim (s : jsstring) : jsstring :=
  rev (dropWhile is_space (rev (dropWhile is_space s))).

(** A pattern is given by its matcher at the head of the remaining input:
    the length of the match that starts there, if there is one. *)
Definition matcher := jsstring -> option nat.

(** A character class [[...]]: one code unit satisfying [p]. *)
Definition match_class (p : N -> bool) : matcher :=
  fun s => match s with
           | c :: _ => if p c then Some 1%nat else None
           | [] => None
           end.

(** [[...]+]: the longest non-empty run of code units satisfying [p]. *)
Definition match_plus (p : N -> bool) : matcher :=
  fun s => match length (takeWhile p s) with
           | O => None
           | n => Some n
           end.

(** [s.replace(/re/g, rep)] for a pattern that matches no empty string:
    scan from the left; at a match emit [rep] and resume after it,
    otherwise keep the code unit and move on by one. *)
Fixpoint replace_from (fuel : nat) (m : matcher) (rep s : jsstring)
  : jsstring :=
  match fuel with
  | O => s
  | S k =>
      match s with
      | [] => []
      | c :: t =>
          match m s with
          | Some (S n) => rep ++ replace_from k m rep (skipn (S n) s)
          | _ => c :: replace_from k m rep t
          end
      end
  end.

Definition replace_g (m : matcher) (rep s : jsstring) : jsstring :=
  replace_from (length s) m rep s.

(** Decimal rendering of an integer, as in a template literal. *)
Definition show_int (z : Z) : jsstring :=
  lit (NilZero.string_of_int (Z.to_int z)).

End Js.

(** ** Filename derivation (the first lines of [startDownload]) *)

Module Filename.
Import Js.

Definition slash : N := 47.
Definition dot : N := 46.
Definition underscore : N := 95.
Definition hyphen : N := 45.

(** [product.file_url.split('/').pop() || product.file_url] *)
Definition filename (file_url : jsstring) : jsstring :=
  or_else (pop (split slash file_url)) file_url.

(** ['.' + x] where [x] may be [undefined]. *)
Definition dot_plus (x : option jsstring) : jsstring :=
  match x with
  | Some s => dot :: s
  | None => dot :: lit "undefined"
  end.

(** [filename.includes('.') ? '.' + filename.split('.').pop() : '.zip'] *)
Definition fileExtension (filename : jsstring) : jsstring :=
  if includes dot filename
  then dot_plus (pop (split dot filename))
  else lit ".zip".

(** The class [[a-zA-Z0-9\s\-_]]; the pattern of the first [replace] is
    its complement. *)
Definition allowed (c : N) : bool :=
  in_range 97 122 c || in_range 65 90 c || in_range 48 57 c
  || is_space c || N.eqb c hyphen || N.eqb c underscore.

Definition special (c : N) : bool := negb (allowed c).

(** [title.replace(/[^a-zA-Z0-9\s\-_]/g, '').replace(/\s+/g, '_').trim()] *)
Definition sanitizedTitle (title : jsstring) : jsstring :=
  trim
    (replace_g (match_plus is_space) [underscore]
       (replace_g (match_class special) [] title)).

(** [`${sanitizedTitle}${fileExtension}`] *)
Definition downloadFilename (title file_url : jsstring) : jsstring :=
  sanitizedTitle title ++ fileExtension (filename file_url).

(** *** The derivation in the words of the specification *)

(** Strip every character outside the allowed class. *)
Definition spec_strip (title : jsstring) : jsstring := filter allowed title.

(** Collapse every run of whitespace to a single underscore;
    [in_run] tells that the previous character was whitespace. *)
Fixpoint spec_collapse (in_run : bool) (s : jsstring) : jsstring :=
  match s with
  | [] => []
  | c :: t =>
      if is_space c
      then if in_run then spec_collapse true t
           else underscore :: spec_collapse true t
      else c :: spec_collapse false t
  end.

(** The sanitized title as the specification means it: stripped, with
    no whitespace left at either end and every run of whitespace inside
    collapsed to one underscore. The trimming has to act on the
    whitespace, before it has become underscores: only then does
    ["  multi   space  name"] give ["multi_space_name"], as the
    specification says it does. *)
Definition spec_sanitize (title : jsstring) : jsstring :=
  spec_collapse false (trim (spec_strip title)).

(** The substring after the last occurrence of [sep] (the whole string
    when [sep] does not occur). *)
Fixpoint after_last (sep : N) (s : jsstring) : jsstring :=
  match s with
  | [] => []
  | c :: t =>
      if includes sep t then after_last sep t
      else if N.eqb c sep then t else c :: t
  end.

(** The basename of a path: what follows its last ['/']. *)
Definition spec_basename (fileRef : jsstring) : jsstring :=
  after_last slash fileRef.

(** The extension after the last ['.'], [.zip] when there is no ['.']. *)
Definition spec_extension (base : jsstring) : jsstring :=
  if includes dot base then dot :: after_last dot base else lit ".zip".

Definition spec_derived (title fileRef : jsstring) : jsstring :=
  spec_sanitize title ++ spec_extension (spec_basename fileRef).

(** The object name the code really uses: the basename, or the whole
    reference when the basename is empty (the reference ends in ['/']). *)
Definition object_name (fileRef : jsstring) : jsstring :=
  match spec_basename fileRef with
  | [] => fileRef
  | b => b
  end.

End Filename.

(** ** The delivery orchestrator ([startDownload]) *)

Module Delivery.
Import Js Filename.

(** The [product] prop. [file_url] is optional. *)
Record Product := {
  id : jsstring;
  title : jsstring;
  price : Z;
  file_url : option jsstring
}.

(** A thrown value: an [Error] with its message, or anything else. *)
Inductive Thrown :=
| ErrorObj (message : jsstring)
| NonError.

(** Calls that leave the component: the storage client, the network and
    the browser. The DOM steps of a strategy (object URL, hidden anchor
    with its [href] and [download], append, click) are one call. *)
Inductive Call :=
| CreateSignedUrl (bucket path : jsstring) (expiresIn : Z)
| Fetch (url : jsstring)
| ResponseBlob
| SaveBlob (download : jsstring)
| AnchorClick (href download : jsstring)
| LocationHref (url : jsstring).

(** What an attempt does, in order: the state setters it calls, the
    toasts it raises, the calls it makes. [setDownloadComplete] is only
    ever called with [true]. Writes to the console are left out. *)
Inductive Effect :=
| SetIsDownloading (b : bool)
| SetDownloadCompleteTrue
| Toast (title description : jsstring) (destructive : bool)
| Called (c : Call).

(** The answers of the outside world during one attempt. *)
Inductive StorageReply :=
| StorageRejects (e : Thrown)
| StorageError (message : jsstring)
| StorageData (signedUrl : option jsstring).

Record Response := { ok : bool; status : Z }.

Inductive FetchReply :=
| FetchRejects (e : Thrown)
| FetchResolves (r : Response).

Record World := {
  createSignedUrl : StorageReply;
  fetch : FetchReply;
  blob : option Thrown;
  saveBlob : option Thrown;
  anchorClick : option Thrown;
  locationHref : option Thrown
}.

(** *** Exceptions and a trace *)

Inductive Result (A : Type) :=
| Normal (a : A)
| Throw (e : Thrown).
Arguments Normal {A} a.
Arguments Throw {A} e.

Definition M (A : Type) : Type := Result A * list Effect.

Definition ret {A} (a : A) : M A := (Normal a, []).

Definition bind {A B} (m : M A) (f : A -> M B) : M B :=
  match m with
  | (Normal a, t) => let (r, t') := f a in (r, t ++ t')
  | (Throw e, t) => (Throw e, t)
  end.

Definition emit (e : Effect) : M unit := (Normal tt, [e]).

Definition throw {A} (e : Thrown) : M A := (Throw e, []).

(** [try { m } catch (e) { h e }] *)
Definition try_catch {A} (m : M A) (h : Thrown -> M A) : M A :=
  match m with
  | (Throw e, t) => let (r, t') := h e in (r, t ++ t')
  | normal => normal
  end.

(** [try { m } finally { f }] *)
Definition try_finally {A} (m : M A) (f : M unit) : M A :=
  match m, f with
  | (r, t), (Normal _, t') => (r, t ++ t')
  | (_, t), (Throw e, t') => (Throw e, t ++ t')
  end.

Definition trace {A} (m : M A) : list Effect := snd m.

Declare Scope js_scope.
Delimit Scope js_scope with js.
Notation "x <- m ;; k" := (bind m (fun x => k))
  (at level 61, m at next level, right associativity) : js_scope.
Notation "m ;; k" := (bind m (fun _ => k))
  (at level 61, right associativity) : js_scope.
Local Open Scope js_scope.

(** An awaited or synchronous call that returns nothing of interest. *)
Definition perform (c : Call) (answer : option Thrown) : M unit :=
  emit (Called c) ;;
  match answer with
  | Some e => throw e
  | None => ret tt
  end.

(** The [{ data, error }] pair of the storage client. *)
Inductive SignedUrlResult :=
| WithError (message : jsstring)
| WithData (signedUrl : option jsstring).

Definition await_createSignedUrl (w : World) (bucket path : jsstring)
  (expiresIn : Z) : M SignedUrlResult :=
  emit (Called (CreateSignedUrl bucket path expiresIn)) ;;
  match createSignedUrl w with
  | StorageRejects e => throw e
  | StorageError m => ret (WithError m)
  | StorageData u => ret (WithData u)
  end.

Definition await_fetch (w : World) (url : jsstring) : M Response :=
  emit (Called (Fetch url)) ;;
  match fetch w with
  | FetchRejects e => throw e
  | FetchResolves r => ret r
  end.

Definition generic_message : jsstring :=
  lit "Unable to download the file. Please contact support.".

(** The buffered fetch, then the anchor, then the full navigation. *)
Definition cascade (w : World) (product : Product)
  (signedUrl downloadFilename : jsstring) : M unit :=
  try_catch
    (response <- await_fetch w signedUrl ;;
     (if negb (ok response)
      then throw (ErrorObj (lit "Fetch failed: " ++ show_int (status response)))
      else ret tt) ;;
     perform ResponseBlob (blob w) ;;
     perform (SaveBlob downloadFilename) (saveBlob w) ;;
     emit SetDownloadCompleteTrue ;;
     emit (Toast (lit "Download Complete")
             (title product ++ lit " has been downloaded successfully")
             false))
    (fun fetchError =>
       try_catch
         (perform (AnchorClick signedUrl downloadFilename) (anchorClick w) ;;
          emit SetDownloadCompleteTrue ;;
          emit (Toast (lit "Download Started")
                  (title product ++ lit " download has been initiated")
                  false))
         (fun directError =>
            perform (LocationHref signedUrl) (locationHref w) ;;
            emit SetDownloadCompleteTrue ;;
            emit (Toast (lit "Download Started")
                    (title product ++ lit " download has been initiated")
                    false))).

(** The body of the [if (product.file_url)] branch. *)
Definition deliver (w : World) (product : Product) (url : jsstring)
  : M unit :=
  r <- await_createSignedUrl w (lit "product-files") (filename url) 3600 ;;
  match r with
  | WithError m => throw (ErrorObj (lit "Storage error: " ++ m))
  | WithData (Some signedUrl) =>
      if truthy signedUrl
      then cascade w product signedUrl (downloadFilename (title product) url)
      else throw (ErrorObj (lit "Unable to create secure download link"))
  | WithData None =>
      throw (ErrorObj (lit "Unable to create secure download link"))
  end.

(** The [try { ... } catch (error) { ... }] of [startDownload]. *)
Definition guarded (product : Product) (w : World) : M unit :=
  try_catch
    (match file_url product with
     | Some url =>
         if truthy url then deliver w product url
         else throw (ErrorObj (lit "No file available for download"))
     | None => throw (ErrorObj (lit "No file available for download"))
     end)
    (fun error =>
       emit (Toast (lit "Download Failed")
               (match error with
                | ErrorObj m => m
                | NonError => generic_message
                end)
               true)).

Definition startDownload (product : Product) (w : World) : M unit :=
  emit (SetIsDownloading true) ;;
  try_finally (guarded product w) (emit (SetIsDownloading false)).

(** *** The outcome of an attempt, read off its toast *)

Inductive Outcome :=
| Success
| Failure (reason : jsstring).

Fixpoint outcome (t : list Effect) : option Outcome :=
  match t with
  | [] => None
  | Toast _ d destructive :: rest =>
      match outcome rest with
      | Some o => Some o
      | None => Some (if destructive then Failure d else Success)
      end
  | _ :: rest => outcome rest
  end.

Definition is_call (e : Effect) : bool :=
  match e with Called _ => true | _ => false end.

(** The calls of a trace, in order. *)
Definition calls (t : list Effect) : list Call :=
  flat_map (fun e => match e with Called c => [c] | _ => [] end) t.

Definition is_strategy (c : Call) : bool :=
  match c with
  | CreateSignedUrl _ _ _ => false
  | _ => true
  end.

Definition is_storage (c : Call) : bool :=
  match c with
  | CreateSignedUrl _ _ _ => true
  | _ => false
  end.

Definition writes_isDownloading (e : Effect) : bool :=
  match e with SetIsDownloading _ => true | _ => false end.

Definition writes_downloadComplete (e : Effect) : bool :=
  match e with SetDownloadCompleteTrue => true | _ => false end.

(** A trace whose toast agrees with what it did to [downloadComplete]:
    a success wrote it, a failure did not. *)
Definition outcome_matches_flag (t : list Effect) : bool :=
  match outcome t with
  | Some Success => existsb writes_downloadComplete t
  | Some (Failure _) => negb (existsb writes_downloadComplete t)
  | None => false
  end.

(** The URL a strategy call is aimed at. *)
Definition url_of (c : Call) : option jsstring :=
  match c with
  | Fetch u => Some u
  | AnchorClick u _ => Some u
  | LocationHref u => Some u
  | _ => None
  end.

Definition throws (answer : option Thrown) : bool :=
  match answer with Some _ => true | None => false end.

(** Strategy 1 fails: the fetch rejects, the response is not [ok],
    reading the body rejects, or a DOM step of the save throws. *)
Definition strategy1_fails (w : World) : bool :=
  match fetch w with
  | FetchRejects _ => true
  | FetchResolves resp =>
      negb (ok resp) || throws (blob w) || throws (saveBlob w)
  end.

(** [product.file_url] is falsy: missing, or the empty string. *)
Definition no_file (product : Product) : bool :=
  match file_url product with
  | Some url => negb (truthy url)
  | None => true
  end.

End Delivery.

(** ** The release gate (component state and the countdown effect) *)

Module Gate.
Import Js Filename Delivery.

(** The three [useState] cells, the pending [setTimeout] (with the value
    its callback will pass to [setCountdown]) and whether the component is
    still mounted. *)
Record Component := {
  countdown : Z;
  isDownloading : bool;
  downloadComplete : bool;
  timer : option Z;
  mounted : bool
}.

(** What can happen to a presented component: its timer fires, the
    presentation is closed, or a running [startDownload] performs its
    next effect. *)
Inductive Event :=
| TimerFired
| Close
| Dispatch (e : Effect).

(** [AutoTrigger]: the effect called [startDownload()]. *)
Inductive Output :=
| AutoTrigger.

Definition set_timer (t : option Z) (c : Component) : Component :=
  {| countdown := countdown c; isDownloading := isDownloading c;
     downloadComplete := downloadComplete c; timer := t;
     mounted := mounted c |}.

Definition set_countdown (n : Z) (c : Component) : Component :=
  {| countdown := n; isDownloading := isDownloading c;
     downloadComplete := downloadComplete c; timer := timer c;
     mounted := mounted c |}.

Definition set_isDownloading (b : bool) (c : Component) : Component :=
  {| countdown := countdown c; isDownloading := b;
     downloadComplete := downloadComplete c; timer := timer c;
     mounted := mounted c |}.

Definition set_downloadComplete (b : bool) (c : Component) : Component :=
  {| countdown := countdown c; isDownloading := isDownloading c;
     downloadComplete := b; timer := timer c; mounted := mounted c |}.

Definition set_mounted (b : bool) (c : Component) : Component :=
  {| countdown := countdown c; isDownloading := isDownloading c;
     downloadComplete := downloadComplete c; timer := timer c;
     mounted := b |}.

(** The body of the [useEffect]. *)
Definition effect (c : Component) : Component * list Output :=
  if (0 <? countdown c) && negb (downloadComplete c)
  then (set_timer (Some (countdown c - 1)) c, [])
  else if (countdown c =? 0) && negb (downloadComplete c)
       then (c, [AutoTrigger])
       else (c, []).

(** The function the effect returns: [clearTimeout(timer)]. *)
Definition cleanup (c : Component) : Component := set_timer None c.

(** The dependency array [[countdown, downloadComplete]]. *)
Definition deps_changed (old new : Component) : bool :=
  negb (countdown old =? countdown new)
  || negb (eqb (downloadComplete old) (downloadComplete new)).

(** After a state update: when a dependency changed, the previous
    effect is cleaned up and the effect runs again. Updates that React
    would commit in one batch are committed one by one here; the effect
    reads only [countdown] and [downloadComplete], and an attempt changes
    only the second, from [false] to [true], so the effect sees the same
    values either way. *)
Definition commit (old new : Component) : Component * list Output :=
  if deps_changed old new then effect (cleanup new) else (new, []).

(** First render: [useState(30)], [useState(false)], [useState(false)],
    then the effect. *)
Definition startValue : Z := 30.

Definition initial : Component :=
  {| countdown := startValue; isDownloading := false;
     downloadComplete := false; timer := None; mounted := true |}.

Definition present : Component := fst (effect initial).

(** One event. Nothing reaches an unmounted component, and a timer that
    is not pending cannot fire. *)
Definition step (c : Component) (ev : Event) : Component * list Output :=
  if negb (mounted c) then (c, [])
  else
    match ev with
    | TimerFired =>
        match timer c with
        | Some v => commit c (set_countdown v (set_timer None c))
        | None => (c, [])
        end
    | Close => (set_mounted false (cleanup c), [])
    | Dispatch (SetIsDownloading b) => commit c (set_isDownloading b c)
    | Dispatch SetDownloadCompleteTrue =>
        commit c (set_downloadComplete true c)
    | Dispatch (Toast _ _ _) => (c, [])
    | Dispatch (Called _) => (c, [])
    end.

Fixpoint run (c : Component) (evs : list Event) : Component * list Output :=
  match evs with
  | [] => (c, [])
  | ev :: rest =>
      let (c1, o1) := step c ev in
      let (c2, o2) := run c1 rest in
      (c2, o1 ++ o2)
  end.

Definition state_after (evs : list Event) : Component :=
  fst (run present evs).

Definition outputs_after (evs : list Event) : list Output :=
  snd (run present evs).

(** The component once an attempt has settled: every effect of the
    attempt has been dispatched. *)
Definition settle (c : Component) (product : Product) (w : World)
  : Component :=
  fst (run c (map Dispatch (trace (startDownload product w)))).

(** What holds of the component in every reachable state: the countdown
    stays within [0, 30]; a pending timer belongs to a mounted component
    that is still waiting, and carries the next value; a mounted component
    that is still waiting has its timer pending. *)
Definition Inv (c : Component) : Prop :=
  0 <= countdown c <= startValue
  /\ (forall v, timer c = Some v ->
        v = countdown c - 1 /\ 0 < countdown c
        /\ downloadComplete c = false /\ mounted c = true)
  /\ (mounted c = true -> downloadComplete c = false -> 0 < countdown c ->
      timer c = Some (countdown c - 1)).

(** The number of automatic triggers so far is 1 once the countdown has
    reached 0 and 0 before. *)
Definition fired_for (c : Component) : nat :=
  if countdown c =? 0 then 1%nat else 0%nat.

End Gate.

(** ** Concrete products and worlds *)

Module Demo.
Import Js Filename Delivery Gate.

Definition app : Product :=
  {| id := lit "7"; title := lit "My Cool App!"; price := 0;
     file_url := Some (lit "https://cdn.example/product-files/abc123.zip") |}.

Definition no_file_app : Product :=
  {| id := lit "8"; title := lit "Draft"; price := 5; file_url := None |}.

(** Everything works. *)
Definition all_fine : World :=
  {| createSignedUrl := StorageData (Some (lit "https://signed.example/1"));
     fetch := FetchResolves {| ok := true; status := 200 |};
     blob := None; saveBlob := None; anchorClick := None;
     locationHref := None |}.

(** The signed link is issued, the fetch answers 403. *)
Definition fetch_forbidden : World :=
  {| createSignedUrl := StorageData (Some (lit "https://signed.example/2"));
     fetch := FetchResolves {| ok := false; status := 403 |};
     blob := None; saveBlob := None; anchorClick := None;
     locationHref := None |}.

(** The storage client answers with an error. *)
Definition storage_down : World :=
  {| createSignedUrl := StorageError (lit "Object not found");
     fetch := FetchResolves {| ok := true; status := 200 |};
     blob := None; saveBlob := None; anchorClick := None;
     locationHref := None |}.

(** The storage client answers with neither an error nor a link. *)
Definition link_missing : World :=
  {| createSignedUrl := StorageData None;
     fetch := FetchResolves {| ok := true; status := 200 |};
     blob := None; saveBlob := None; anchorClick := None;
     locationHref := None |}.

(** The request for a signed URL never gets through. *)
Definition offline : World :=
  {| createSignedUrl := StorageRejects (ErrorObj (lit "Failed to fetch"));
     fetch := FetchRejects (ErrorObj (lit "Failed to fetch"));
     blob := None; saveBlob := None; anchorClick := None;
     locationHref := None |}.

(** The fetch is refused and the anchor cannot be used. *)
Definition anchor_broken : World :=
  {| createSignedUrl := StorageData (Some (lit "https://signed.example/3"));
     fetch := FetchResolves {| ok := false; status := 403 |};
     blob := None; saveBlob := None; anchorClick := Some NonError;
     locationHref := None |}.

(** The countdown runs out and the first attempt succeeds. *)
Definition first_success : list Event :=
  repeat TimerFired 30 ++ map Dispatch (trace (startDownload app all_fine)).

End Demo.

(** ** What the download component renders *)

Module Render.
Import Js Filename Delivery Gate.

(** The parts of the card that depend on the state. *)
Record View := {
  cardDescription : jsstring;
  countdownShown : option Z;
  caption : option jsstring;
  spinnerShown : bool;
  completedShown : bool;
  downloadAgainShown : bool;
  closeShown : bool
}.

Definition render (c : Component) : View :=
  {| cardDescription :=
       if downloadComplete c then lit "Download completed!"
       else lit "Preparing your secure download...";
     countdownShown :=
       if downloadComplete c then None else Some (countdown c);
     caption :=
       if downloadComplete c then None
       else Some (if 0 <? countdown c
                  then lit "seconds until secure download"
                  else lit "Generating secure download...");
     spinnerShown := negb (downloadComplete c) && isDownloading c;
     completedShown := downloadComplete c;
     downloadAgainShown := downloadComplete c;
     closeShown := true |}.

(** The component when the countdown has just run out. *)
Definition at_zero : Component := state_after (repeat TimerFired 30).

End Render.

(** ** The admin upload form ([ProductUploadForm]) *)

Module Upload.
Import Js Filename.

Record File := { name : jsstring; content : N }.

Record FormData := {
  title : jsstring;
  description : jsstring;
  price : jsstring;
  category : jsstring;
  tags : list jsstring;
  isFree : bool
}.

(** The six [useState] cells of the form. *)
Record Form := {
  formData : FormData;
  newTag : jsstring;
  imageFile : option File;
  productFile : option File;
  featureImages : list File;
  uploading : bool
}.

Definition emptyFormData : FormData :=
  {| title := []; description := []; price := []; category := [];
     tags := []; isFree := false |}.

Definition initialForm : Form :=
  {| formData := emptyFormData; newTag := []; imageFile := None;
     productFile := None; featureImages := []; uploading := false |}.

Definition set_tags (l : list jsstring) (d : FormData) : FormData :=
  {| title := title d; description := description d; price := price d;
     category := category d; tags := l; isFree := isFree d |}.

Definition set_formData (d : FormData) (f : Form) : Form :=
  {| formData := d; newTag := newTag f; imageFile := imageFile f;
     productFile := productFile f; featureImages := featureImages f;
     uploading := uploading f |}.

Definition set_newTag (s : jsstring) (f : Form) : Form :=
  {| formData := formData f; newTag := s; imageFile := imageFile f;
     productFile := productFile f; featureImages := featureImages f;
     uploading := uploading f |}.

Definition set_imageFile (o : option File) (f : Form) : Form :=
  {| formData := formData f; newTag := newTag f; imageFile := o;
     productFile := productFile f; featureImages := featureImages f;
     uploading := uploading f |}.

Definition set_productFile (o : option File) (f : Form) : Form :=
  {| formData := formData f; newTag := newTag f; imageFile := imageFile f;
     productFile := o; featureImages := featureImages f;
     uploading := uploading f |}.

Definition set_featureImages (l : list File) (f : Form) : Form :=
  {| formData := formData f; newTag := newTag f; imageFile := imageFile f;
     productFile := productFile f; featureImages := l;
     uploading := uploading f |}.

Definition set_uploading (b : bool) (f : Form) : Form :=
  {| formData := formData f; newTag := newTag f; imageFile := imageFile f;
     productFile := productFile f; featureImages := featureImages f;
     uploading := b |}.

(** *** Tags *)

(** [tags.includes(t)] *)
Definition tags_include (t : jsstring) (l : list jsstring) : bool :=
  existsb (jsstring_eqb t) l.

Definition addTag (f : Form) : Form :=
  if truthy (trim (newTag f))
     && negb (tags_include (trim (newTag f)) (tags (formData f)))
  then set_newTag []
         (set_formData
            (set_tags (tags (formData f) ++ [trim (newTag f)]) (formData f))
            f)
  else f.

Definition removeTag (tagToRemove : jsstring) (f : Form) : Form :=
  set_formData
    (set_tags
       (filter (fun tag => negb (jsstring_eqb tag tagToRemove))
          (tags (formData f)))
       (formData f))
    f.

(** What the admin does in the tag editor: type into the input, press
    add, press the cross of a chip. *)
Inductive TagAction :=
| TypeTag (s : jsstring)
| PressAdd
| PressRemove (t : jsstring).

Definition tag_step (f : Form) (a : TagAction) : Form :=
  match a with
  | TypeTag s => set_newTag s f
  | PressAdd => addTag f
  | PressRemove t => removeTag t f
  end.

Definition tag_run (f : Form) (l : list TagAction) : Form :=
  fold_left tag_step l f.

(** *** File names *)

(** [`${x}`] for a value that may be [undefined]. *)
Definition render_opt (x : option jsstring) : jsstring :=
  match x with
  | Some s => s
  | None => lit "undefined"
  end.

(** [file.name.split('.').pop()] *)
Definition fileExt (file : File) : option jsstring :=
  pop (split dot (name file)).

(** The [sanitizedName] of [uploadFile]. *)
Definition sanitizedName (customName : jsstring) : jsstring :=
  trim
    (replace_g (match_plus is_space) [underscore]
       (replace_g (match_class special) [] customName)).

(** The [fileName] of [uploadFile]; [rnd] is the rendering of
    [Math.random()]. *)
Definition fileName (file : File) (customName : option jsstring)
  (rnd : jsstring) : jsstring :=
  match customName with
  | Some c =>
      if truthy c
      then sanitizedName c ++ dot :: render_opt (fileExt file)
      else rnd ++ dot :: render_opt (fileExt file)
  | None => rnd ++ dot :: render_opt (fileExt file)
  end.

(** A well-kept tag list: no tag twice, every tag non-empty and equal
    to its own trimming. *)
Definition tags_ok (l : list jsstring) : Prop :=
  NoDup l /\ Forall (fun t => truthy t = true /\ trim t = t) l.

End Upload.

(** ** Submitting the upload form ([uploadFile], [handleSubmit]) *)

Module Submit.
Import Js Filename Upload.

(** A thrown or returned error, as far as the form looks at it:
    its [message], if it has one. *)
Inductive Raised :=
| WithMessage (message : jsstring)
| NoMessage.

(** [error.message] *)
Definition message_of (e : Raised) : option jsstring :=
  match e with
  | WithMessage m => Some m
  | NoMessage => None
  end.

(** What a rejected promise or a throwing callback hands to the
    [catch]: [null], [undefined], or a value whose [message] can be
    read. *)
Inductive Thrown :=
| Null
| Undefined
| Value (e : Raised).


(** The [TypeError] of reading [.message] of [null] or [undefined]
    (as Chrome words it). *)
Definition type_error (e : Thrown) : Thrown :=
  Value (WithMessage
           (lit "Cannot read properties of "
              ++ match e with
                 | Undefined => lit "undefined"
                 | _ => lit "null"
                 end
              ++ lit " (reading 'message')")).

(** [formData.isFree ? 0 : parseFloat(formData.price)] *)
Inductive Price :=
| PriceZero
| ParseFloat (s : jsstring).

(** The object passed to [insert]. *)
Record Row := {
  row_title : jsstring;
  row_description : jsstring;
  row_price : Price;
  row_category : option jsstring;
  row_tags : option (list jsstring);
  row_image_url : option jsstring;
  row_file_url : option jsstring;
  row_feature_images : option (list jsstring);
  row_is_active : bool
}.

Inductive FormEffect :=
| PreventDefault
| SetUploading (b : bool)
| FormToast (heading text : jsstring) (destructive : bool)
| UploadCall (bucket path : jsstring) (file : File)
| InsertCall (table : jsstring) (row : Row)
| SetFormData (d : FormData)
| SetNewTag (s : jsstring)
| SetImageFile (o : option File)
| SetProductFile (o : option File)
| SetFeatureImages (l : list File)
| OnProductUploaded.

(** How an awaited client call ends: the promise rejects, it resolves
    with a (truthy) [error], or it resolves without one. *)
Inductive Reply :=
| Rejects (e : Thrown)
| ResolvesWithError (e : Raised)
| ResolvesOk.

(** The outside world during one submission: the successive values of
    [Math.random()] as rendered in a template, the answer to each upload
    call (numbered in the order the calls are made) and the moment it
    settles, the public URL of an object, the answer to the insert, and
    whether the [onProductUploaded] callback throws. *)
Record World := {
  random : nat -> jsstring;
  uploadReply : nat -> Reply;
  settleRank : nat -> nat;
  publicUrl : jsstring -> jsstring -> jsstring;
  insertReply : Reply;
  callback : option Thrown
}.

(** How many random numbers were drawn, how many uploads were sent. *)
Record Counters := { draws : nat; sent : nat }.

Inductive Res (A : Type) :=
| Done (a : A)
| Raise (e : Thrown).
Arguments Done {A} a.
Arguments Raise {A} e.

Definition U (A : Type) : Type :=
  Counters -> Res A * list FormEffect * Counters.

Definition ret {A} (a : A) : U A := fun k => (Done a, [], k).

Definition bind {A B} (m : U A) (f : A -> U B) : U B :=
  fun k =>
    match m k with
    | (Done a, t, k1) =>
        match f a k1 with
        | (r, t', k2) => (r, t ++ t', k2)
        end
    | (Raise e, t, k1) => (Raise e, t, k1)
    end.

Definition emit (e : FormEffect) : U unit := fun k => (Done tt, [e], k).

Definition raise {A} (e : Thrown) : U A := fun k => (Raise e, [], k).

Definition await {A} (r : Res A) : U A := fun k => (r, [], k).

Definition try_catch {A} (m : U A) (h : Thrown -> U A) : U A :=
  fun k =>
    match m k with
    | (Raise e, t, k1) =>
        match h e k1 with
        | (r, t', k2) => (r, t ++ t', k2)
        end
    | done => done
    end.

Definition try_finally {A} (m : U A) (f : U unit) : U A :=
  fun k =>
    match m k with
    | (r, t, k1) =>
        match f k1 with
        | (Done _, t', k2) => (r, t ++ t', k2)
        | (Raise e, t', k2) => (Raise e, t ++ t', k2)
        end
    end.

Declare Scope form_scope.
Delimit Scope form_scope with form.
Notation "x <- m ;; k" := (bind m (fun x => k))
  (at level 61, m at next level, right associativity) : form_scope.
Notation "m ;; k" := (bind m (fun _ => k))
  (at level 61, right associativity) : form_scope.
Local Open Scope form_scope.

(** [Math.random()] *)
Definition math_random (w : World) : U jsstring :=
  fun k => (Done (random w (draws k)), [],
            {| draws := S (draws k); sent := sent k |}).

(** An upload that has been sent and not yet awaited. *)
Record Pending := {
  to_bucket : jsstring;
  to_path : jsstring;
  index : nat
}.

(** [supabase.storage.from(bucket).upload(filePath, file)], up to the
    promise it returns. *)
Definition send_upload (bucket path : jsstring) (file : File) : U Pending :=
  fun k => (Done {| to_bucket := bucket; to_path := path; index := sent k |},
            [UploadCall bucket path file],
            {| draws := draws k; sent := S (sent k) |}).

Definition has_custom_name (customName : option jsstring) : bool :=
  match customName with
  | Some c => truthy c
  | None => false
  end.

(** [uploadFile] up to its [await]: the name is chosen and the upload is
    sent. *)
Definition begin_upload (w : World) (file : File) (bucket : jsstring)
  (customName : option jsstring) : U Pending :=
  rnd <- (if has_custom_name customName then ret [] else math_random w) ;;
  send_upload bucket (fileName file customName rnd) file.

(** [uploadFile] after its [await]: [if (error) throw error], then the
    public URL of the stored object. *)
Definition finish_upload (w : World) (p : Pending) : Res jsstring :=
  match uploadReply w (index p) with
  | Rejects e => Raise e
  | ResolvesWithError e => Raise (Value e)
  | ResolvesOk => Done (publicUrl w (to_bucket p) (to_path p))
  end.

Definition uploadFile (w : World) (file : File) (bucket : jsstring)
  (customName : option jsstring) : U jsstring :=
  p <- begin_upload w file bucket customName ;;
  await (finish_upload w p).

(** [files.map(file => uploadFile(file, bucket))]: every call runs up to
    its [await], in order. *)
Fixpoint begin_all (w : World) (files : list File) (bucket : jsstring)
  : U (list Pending) :=
  match files with
  | [] => ret []
  | file :: rest =>
      p <- begin_upload w file bucket None ;;
      ps <- begin_all w rest bucket ;;
      ret (p :: ps)
  end.

(** The rejection that settles first among the pending uploads, the
    earlier call winning a tie. *)
Fixpoint earliest_rejection (w : World) (ps : list Pending)
  (best : option (nat * Thrown)) : option (nat * Thrown) :=
  match ps with
  | [] => best
  | p :: rest =>
      match finish_upload w p with
      | Raise e =>
          let r := settleRank w (index p) in
          earliest_rejection w rest
            (match best with
             | Some (r0, e0) => if (r <? r0)%nat then Some (r, e) else best
             | None => Some (r, e)
             end)
      | Done _ => earliest_rejection w rest best
      end
  end.

(** [Promise.all]: the results in order, or the first rejection. *)
Definition promise_all (w : World) (ps : list Pending)
  : Res (list jsstring) :=
  match earliest_rejection w ps None with
  | Some (_, e) => Raise e
  | None => Done (map (fun p => publicUrl w (to_bucket p) (to_path p)) ps)
  end.

(** [s || null] *)
Definition or_null (s : jsstring) : option jsstring :=
  if truthy s then Some s else None.

(** [l.length > 0 ? l : null] *)
Definition nonempty_or_null {A} (l : list A) : option (list A) :=
  match l with
  | [] => None
  | _ :: _ => Some l
  end.

Definition row_of (d : FormData) (imageUrl fileUrl : jsstring)
  (featureImageUrls : list jsstring) : Row :=
  {| row_title := title d;
     row_description := description d;
     row_price := if isFree d then PriceZero else ParseFloat (price d);
     row_category := or_null (category d);
     row_tags := nonempty_or_null (tags d);
     row_image_url := or_null imageUrl;
     row_file_url := or_null fileUrl;
     row_feature_images := nonempty_or_null featureImageUrls;
     row_is_active := true |}.

(** [await supabase.from('products').insert(row)] and
    [if (error) throw error]. *)
Definition insert_row (w : World) (row : Row) : U unit :=
  emit (InsertCall (lit "products") row) ;;
  match insertReply w with
  | Rejects e => raise e
  | ResolvesWithError e => raise (Value e)
  | ResolvesOk => ret tt
  end.

(** The required fields are missing. *)
Definition incomplete (d : FormData) : bool :=
  negb (truthy (title d)) || (negb (isFree d) && negb (truthy (price d))).

(** The feature images: nothing when there are none, otherwise
    [await Promise.all(featureImages.map(...))]. *)
Definition upload_features (w : World) (files : list File)
  : U (list jsstring) :=
  match files with
  | _ :: _ =>
      ps <- begin_all w files (lit "product-images") ;;
      await (promise_all w ps)
  | [] => ret []
  end.

(** The three upload steps of the [try] block. *)
Definition upload_all (w : World) (f : Form)
  : U (jsstring * jsstring * list jsstring) :=
  imageUrl <- match imageFile f with
              | Some file => uploadFile w file (lit "product-images") None
              | None => ret []
              end ;;
  fileUrl <- match productFile f with
             | Some file =>
                 uploadFile w file (lit "product-files")
                   (Some (title (formData f)))
             | None => ret []
             end ;;
  featureImageUrls <- upload_features w (featureImages f) ;;
  ret (imageUrl, fileUrl, featureImageUrls).

(** The rest of the [try] block: insert, announce, reset, notify. *)
Definition save_and_reset (w : World) (f : Form)
  (urls : jsstring * jsstring * list jsstring) : U unit :=
  let '(imageUrl, fileUrl, featureImageUrls) := urls in
  insert_row w (row_of (formData f) imageUrl fileUrl featureImageUrls) ;;
  emit (FormToast (lit "Success") (lit "Product uploaded successfully!")
          false) ;;
  emit (SetFormData emptyFormData) ;;
  emit (SetNewTag []) ;;
  emit (SetImageFile None) ;;
  emit (SetProductFile None) ;;
  emit (SetFeatureImages []) ;;
  emit OnProductUploaded ;;
  match callback w with
  | Some e => raise e
  | None => ret tt
  end.

(** The [catch] block: [error.message] is read first, which throws a
    [TypeError] when what was caught is [null] or [undefined]; no toast
    is raised then. *)
Definition report (error : Thrown) : U unit :=
  match error with
  | Value e =>
      emit (FormToast (lit "Error")
              (or_else (message_of e) (lit "Failed to upload product"))
              true)
  | _ => raise (type_error error)
  end.

(** The [try] block of [handleSubmit]. *)
Definition tried (w : World) (f : Form) : U unit :=
  urls <- upload_all w f ;; save_and_reset w f urls.

(** The [try { ... } catch (error) { ... }] of [handleSubmit]. *)
Definition attempt (w : World) (f : Form) : U unit :=
  try_catch (tried w f) report.

Definition handleSubmit (w : World) (f : Form) : U unit :=
  emit PreventDefault ;;
  if incomplete (formData f)
  then emit (FormToast (lit "Error")
               (lit "Please fill in all required fields") true)
  else
    emit (SetUploading true) ;;
    try_finally (attempt w f) (emit (SetUploading false)).

Definition start : Counters := {| draws := 0; sent := 0 |}.

(** The effects of one submission, in order. *)
Definition submission (w : World) (f : Form) : list FormEffect :=
  snd (fst (handleSubmit w f start)).

(** The form once the setters of a trace have been applied. *)
Definition apply_effect (f : Form) (e : FormEffect) : Form :=
  match e with
  | SetUploading b => set_uploading b f
  | SetFormData d => set_formData d f
  | SetNewTag s => set_newTag s f
  | SetImageFile o => set_imageFile o f
  | SetProductFile o => set_productFile o f
  | SetFeatureImages l => set_featureImages l f
  | _ => f
  end.

Definition form_after (f : Form) (t : list FormEffect) : Form :=
  fold_left apply_effect t f.

Definition is_upload (e : FormEffect) : bool :=
  match e with UploadCall _ _ _ => true | _ => false end.

Definition is_insert (e : FormEffect) : bool :=
  match e with InsertCall _ _ => true | _ => false end.

Definition is_toast (e : FormEffect) : bool :=
  match e with FormToast _ _ _ => true | _ => false end.

Definition is_callback (e : FormEffect) : bool :=
  match e with OnProductUploaded => true | _ => false end.

Definition writes_form (e : FormEffect) : bool :=
  match e with
  | SetFormData _ | SetNewTag _ | SetImageFile _ | SetProductFile _
  | SetFeatureImages _ => true
  | _ => false
  end.

Definition writes_uploading (e : FormEffect) : bool :=
  match e with SetUploading _ => true | _ => false end.

Definition is_done {A} (r : Res A) : bool :=
  match r with Done _ => true | Raise _ => false end.

(** The [n]-th upload call is answered without an error. *)
Definition accepted (w : World) (n : nat) : bool :=
  match uploadReply w n with
  | ResolvesOk => true
  | _ => false
  end.

(** What a failing call throws into the [try] block. *)
Definition failure_of (r : Reply) : option Thrown :=
  match r with
  | Rejects e => Some e
  | ResolvesWithError e => Some (Value e)
  | ResolvesOk => None
  end.

(** The [n]-th upload call fails with [e]. *)
Definition refused (w : World) (n : nat) (e : Thrown) : Prop :=
  failure_of (uploadReply w n) = Some e.

Definition all_accepted (w : World) (n : nat) : bool :=
  forallb (accepted w) (seq 0 n).

Definition inserted (w : World) : bool :=
  match insertReply w with
  | ResolvesOk => true
  | _ => false
  end.

Definition chosen {A} (o : option A) : nat :=
  match o with Some _ => 1%nat | None => 0%nat end.

(** The files the form holds. *)
Definition files_to_send (f : Form) : nat :=
  (chosen (imageFile f) + chosen (productFile f)
   + length (featureImages f))%nat.

(** The uploads a submission really sends: the image, then the product
    file if the image went through, then all feature images at once if
    the product file went through. *)
Definition uploads_sent (w : World) (f : Form) : nat :=
  (if (chosen (imageFile f) =? 1) && negb (accepted w 0) then 1
   else if (chosen (productFile f) =? 1)
           && negb (accepted w (chosen (imageFile f)))
        then chosen (imageFile f) + 1
        else files_to_send f)%nat.

Definition error_toast (e : Raised) : FormEffect :=
  FormToast (lit "Error")
    (or_else (message_of e) (lit "Failed to upload product")) true.

Definition success_toast : FormEffect :=
  FormToast (lit "Success") (lit "Product uploaded successfully!") false.

Definition reset_effects : list FormEffect :=
  [SetFormData emptyFormData; SetNewTag []; SetImageFile None;
   SetProductFile None; SetFeatureImages []].

(** The toast the [catch] block raises for what it caught: none for
    [null] and [undefined]. *)
Definition toast_for (e : Thrown) : list FormEffect :=
  match e with
  | Value r => [error_toast r]
  | _ => []
  end.

(** How the [catch] block ends for what it caught. *)
Definition catch_result (e : Thrown) : Res unit :=
  match e with
  | Value _ => Done tt
  | _ => Raise (type_error e)
  end.


(** What is thrown after the uploads: by the insert, or else by the
    callback. *)
Definition thrown_after_uploads (w : World) : option Thrown :=
  match failure_of (insertReply w) with
  | Some e => Some e
  | None => callback w
  end.

(** What a submission does once every upload has gone through. *)
Definition after_uploads (w : World) (f : Form)
  (urls : jsstring * jsstring * list jsstring) : list FormEffect :=
  InsertCall (lit "products")
    (row_of (formData f) (fst (fst urls)) (snd (fst urls)) (snd urls))
  :: match insertReply w with
     | Rejects e => toast_for e
     | ResolvesWithError e => [error_toast e]
     | ResolvesOk =>
         success_toast :: reset_effects
         ++ OnProductUploaded
         :: match callback w with
            | Some e => toast_for e
            | None => []
            end
     end.

(** What the [try]/[catch] leaves after the uploads. *)
Definition tail_of (w : World) (f : Form)
  (r : Res (jsstring * jsstring * list jsstring)) : list FormEffect :=
  match r with
  | Done urls => after_uploads w f urls
  | Raise e => toast_for e
  end.

(** What the [try] block throws, given how the uploads ended. *)
Definition thrown_by (w : World)
  (r : Res (jsstring * jsstring * list jsstring)) : option Thrown :=
  match r with
  | Done _ => thrown_after_uploads w
  | Raise e => Some e
  end.

(** How [handleSubmit] ends, given what its [try] block threw. *)
Definition ends_as (thrown : option Thrown) : Res unit :=
  match thrown with
  | Some e => catch_result e
  | None => Done tt
  end.

(** The path under which the product file is stored. *)
Definition product_path (f : Form) (file : File) : jsstring :=
  sanitizedName (title (formData f)) ++ dot :: render_opt (fileExt file).

End Submit.

Module DemoForm.
Import Js Filename Upload Submit.

Definition archive : File := {| name := lit "build.v2.zip"; content := 1 |}.
Definition cover : File := {| name := lit "cover.png"; content := 2 |}.
Definition shot : File := {| name := lit "shot.jpg"; content := 3 |}.

Definition filled : Form :=
  {| formData :=
       {| title := lit "My Cool App!"; description := lit "An app";
          price := lit "9.99"; category := []; tags := [lit "tool"];
          isFree := false |};
     newTag := lit "draft"; imageFile := Some cover;
     productFile := Some archive; featureImages := [shot; cover];
     uploading := false |}.

Definition untitled : Form :=
  set_formData emptyFormData filled.

Definition base : jsstring := lit "https://cdn.example/object/public".

Definition calm : World :=
  {| random := fun n => lit "0." ++ show_int (Z.of_nat n);
     uploadReply := fun _ => ResolvesOk;
     settleRank := fun n => n;
     publicUrl := fun bucket path => base ++ slash :: bucket ++ slash :: path;
     insertReply := ResolvesOk;
     callback := None |}.

(** The second upload (the product file) is refused. *)
Definition refused : World :=
  {| random := random calm;
     uploadReply := fun n =>
       if (n =? 1)%nat
       then ResolvesWithError (WithMessage (lit "The resource already exists"))
       else ResolvesOk;
     settleRank := settleRank calm;
     publicUrl := publicUrl calm;
     insertReply := ResolvesOk;
     callback := None |}.


(** Everything is stored, then the callback throws [undefined]. *)
Definition callback_throws : World :=
  {| random := random calm;
     uploadReply := uploadReply calm;
     settleRank := settleRank calm;
     publicUrl := publicUrl calm;
     insertReply := ResolvesOk;
     callback := Some Undefined |}.

End DemoForm.

(** ** Observations on names and traces *)

Module Observe.
Import Js Filename Delivery Gate.

(** The characters a sanitized title is made of: [[A-Za-z0-9_-]]. *)
Definition safe (c : N) : bool :=
  in_range 97 122 c || in_range 65 90 c || in_range 48 57 c
  || N.eqb c hyphen || N.eqb c underscore.

(** [s] ends with [c]. *)
Definition ends_with (c : N) (s : jsstring) : bool :=
  match pop s with
  | Some d => N.eqb d c
  | None => false
  end.

Definition raises_toast (e : Effect) : bool :=
  match e with Toast _ _ _ => true | _ => false end.

(** Neither a toast nor [setIsDownloading(false)]. *)
Definition silent (e : Effect) : bool :=
  match e with
  | Toast _ _ _ => false
  | SetIsDownloading false => false
  | _ => true
  end.

(** Every effect that is still followed by a call is silent. *)
Fixpoint calls_come_first (t : list Effect) : bool :=
  match t with
  | [] => true
  | e :: rest =>
      (silent e || negb (existsb is_call rest)) && calls_come_first rest
  end.

(** The place of a call in the order of [startDownload]. *)
Definition rank (c : Call) : nat :=
  match c with
  | CreateSignedUrl _ _ _ => 0
  | Fetch _ => 1
  | ResponseBlob => 2
  | SaveBlob _ => 3
  | AnchorClick _ _ => 4
  | LocationHref _ => 5
  end%nat.

Fixpoint increasing (l : list nat) : bool :=
  match l with
  | a :: ((b :: _) as rest) => (a <? b)%nat && increasing rest
  | _ => true
  end.

(** Once the delivery has been marked complete, the attempt makes no
    further call and does not mark it again. *)
Fixpoint quiet_after_complete (t : list Effect) : bool :=
  match t with
  | [] => true
  | SetDownloadCompleteTrue :: rest =>
      negb (existsb (fun e => is_call e || writes_downloadComplete e) rest)
  | _ :: rest => quiet_after_complete rest
  end.

(** [data?.signedUrl] is falsy. *)
Definition no_link (r : StorageReply) : bool :=
  match r with
  | StorageData (Some u) => negb (truthy u)
  | StorageData None => true
  | _ => false
  end.

(** The text of the failure toast for a thrown value. *)
Definition shown_message (e : Thrown) : jsstring :=
  match e with
  | ErrorObj m => m
  | NonError => generic_message
  end.

(** The first element, if any, does not satisfy [p]. *)
Definition no_lead {A} (p : A -> bool) (l : list A) : Prop :=
  match l with
  | x :: _ => p x = false
  | [] => True
  end.

End Observe.

(** * Properties *)

(** ** Strings and the derived filename *)

Import Js Filename Delivery Gate.

Section FilenameFacts.

Lemma skipn_takeWhile {A} (p : A -> bool) (l : list A) :
  skipn (length (takeWhile p l)) l = dropWhile p l.
Proof.
  induction l as [|x t IH]; simpl; [reflexivity|].
  destruct (p x); simpl; [exact IH | reflexivity].
Qed.

Lemma dropWhile_length {A} (p : A -> bool) (l : list A) :
  (length (dropWhile p l) <= length l)%nat.
Proof.
  induction l as [|x t IH]; simpl; [lia|].
  destruct (p x); simpl; lia.
Qed.

(** The first [replace] deletes exactly the code units outside the class. *)
Lemma replace_class_filter (p : N -> bool) :
  forall fuel s, (length s <= fuel)%nat ->
    replace_from fuel (match_class p) [] s = filter (fun c => negb (p c)) s.
Proof.
  induction fuel as [|k IH]; intros s Hlen.
  - destruct s; simpl in *; [reflexivity | lia].
  - destruct s as [|c t]; simpl; [reflexivity|].
    simpl in Hlen. destruct (p c); simpl.
    + apply IH. lia.
    + f_equal. apply IH. lia.
Qed.

Lemma collapse_in_run (s : jsstring) :
  spec_collapse true s = spec_collapse false (dropWhile is_space s).
Proof.
  induction s as [|c t IH]; simpl; [reflexivity|].
  destruct (is_space c) eqn:E; simpl; [exact IH | rewrite E; reflexivity].
Qed.

(** The second [replace] turns every maximal whitespace run into one
    underscore. *)
Lemma replace_plus_collapse :
  forall fuel s, (length s <= fuel)%nat ->
    replace_from fuel (match_plus is_space) [underscore] s
    = spec_collapse false s.
Proof.
  induction fuel as [|k IH]; intros s Hlen.
  - destruct s; simpl in *; [reflexivity | lia].
  - destruct s as [|c t]; [reflexivity|].
    simpl in Hlen.
    cbn [replace_from spec_collapse]. unfold match_plus.
    cbn [takeWhile]. destruct (is_space c) eqn:E.
    + cbn [length]. cbn [skipn app]. rewrite skipn_takeWhile.
      rewrite collapse_in_run. f_equal. apply IH.
      pose proof (dropWhile_length is_space t). lia.
    + cbn [length]. f_equal. apply IH. lia.
Qed.

Lemma underscore_not_space : is_space underscore = false.
Proof. reflexivity. Qed.

(** No whitespace survives the collapse. *)
Lemma collapse_no_space (b : bool) (s : jsstring) :
  Forall (fun c => is_space c = false) (spec_collapse b s).
Proof.
  revert b. induction s as [|c t IH]; intros b; simpl; [constructor|].
  destruct (is_space c) eqn:E.
  - destruct b; [apply IH|].
    constructor; [exact underscore_not_space | apply IH].
  - constructor; [exact E | apply IH].
Qed.

Lemma dropWhile_no_space (s : jsstring) :
  Forall (fun c => is_space c = false) s -> dropWhile is_space s = s.
Proof.
  intros H. destruct H as [|c t Hc _]; simpl; [reflexivity|].
  rewrite Hc. reflexivity.
Qed.

(** [trim] changes nothing in a string that holds no whitespace. *)
Lemma trim_no_space (s : jsstring) :
  Forall (fun c => is_space c = false) s -> trim s = s.
Proof.
  intros H. unfold trim. rewrite (dropWhile_no_space s H).
  rewrite dropWhile_no_space.
  - apply rev_involutive.
  - apply Forall_rev. exact H.
Qed.

(** The [trim] of the code comes after the whitespace has become
    underscores, so it never removes anything: the code strips and
    collapses, and that is all. *)
Lemma sanitizedTitle_untrimmed (title : jsstring) :
  sanitizedTitle title = spec_collapse false (spec_strip title).
Proof.
  unfold sanitizedTitle, spec_strip, replace_g.
  rewrite (replace_class_filter special) by lia.
  rewrite replace_plus_collapse by lia.
  rewrite trim_no_space by apply collapse_no_space.
  f_equal. apply filter_ext. intros c. unfold special.
  apply negb_involutive.
Qed.

(** Where the stripped title has no whitespace at either end, the code
    gives the sanitized title of the specification. *)
Lemma sanitizedTitle_spec (title : jsstring) :
  trim (spec_strip title) = spec_strip title ->
  sanitizedTitle title = spec_sanitize title.
Proof.
  intros H. rewrite sanitizedTitle_untrimmed. unfold spec_sanitize.
  rewrite H. reflexivity.
Qed.

(** The two examples of the specification, on the specification's side. *)
Lemma spec_derived_examples :
  spec_derived (lit "My Cool App!") (lit "abc123.zip")
  = lit "My_Cool_App.zip"
  /\ spec_derived (lit "  multi   space  name") (lit "x")
     = lit "multi_space_name.zip".
Proof. split; reflexivity. Qed.

Lemma after_last_absent (sep : N) (s : jsstring) :
  includes sep s = false -> after_last sep s = s.
Proof.
  destruct s as [|c t]; [reflexivity|].
  unfold includes. cbn [existsb after_last]. rewrite N.eqb_sym.
  intros H. apply orb_false_iff in H as [Hc Ht].
  unfold includes. rewrite Ht, Hc. reflexivity.
Qed.

Lemma split_absent (sep : N) (s : jsstring) :
  includes sep s = false -> split sep s = [s].
Proof.
  induction s as [|c t IH]; [reflexivity|].
  unfold includes. cbn [existsb split]. rewrite N.eqb_sym.
  intros H. apply orb_false_iff in H as [Hc Ht].
  rewrite Hc, (IH Ht). reflexivity.
Qed.

Lemma split_present (sep : N) (s : jsstring) :
  includes sep s = true ->
  exists a b rest, split sep s = a :: b :: rest.
Proof.
  induction s as [|c t IH]; [discriminate|].
  unfold includes. cbn [existsb split]. rewrite N.eqb_sym.
  destruct (N.eqb c sep) eqn:Hc; cbn [orb].
  - intros _. destruct (split sep t) as [|seg segs] eqn:E.
    + destruct t as [|d u]; cbn [split] in E; [discriminate|].
      destruct (N.eqb d sep); [discriminate|].
      destruct (split sep u); discriminate.
    + eauto.
  - intros Ht. destruct (IH Ht) as (a & b & rest & E).
    rewrite E. eauto.
Qed.

(** [split(sep).pop()] is the text after the last separator. *)
Lemma pop_split (sep : N) (s : jsstring) :
  pop (split sep s) = Some (after_last sep s).
Proof.
  induction s as [|c t IH]; [reflexivity|].
  cbn [split after_last].
  destruct (includes sep t) eqn:Ht.
  - destruct (split_present sep t Ht) as (a & b & rest & E).
    rewrite E in *. destruct (N.eqb c sep); exact IH.
  - rewrite (split_absent sep t Ht).
    destruct (N.eqb c sep); reflexivity.
Qed.

Lemma filename_object_name (fileRef : jsstring) :
  filename fileRef = object_name fileRef.
Proof.
  unfold filename, object_name, spec_basename. rewrite pop_split.
  simpl. destruct (after_last slash fileRef); reflexivity.
Qed.

Lemma fileExtension_spec (name : jsstring) :
  fileExtension name = spec_extension name.
Proof.
  unfold fileExtension, spec_extension. rewrite pop_split. reflexivity.
Qed.

End FilenameFacts.

(** [C2] in the words of the specification the basename is what follows
    the last ['/']; for a reference that ends in ['/'] the code uses the
    whole reference instead, and the two derivations differ. *)
Lemma derived_filename_trailing_slash :
  downloadFilename (lit "Tool") (lit "files/v1.2/") = lit "Tool.2/"
  /\ spec_derived (lit "Tool") (lit "files/v1.2/") = lit "Tool.zip"
  /\ downloadFilename (lit "Tool") (lit "files/v1.2/")
     <> spec_derived (lit "Tool") (lit "files/v1.2/").
Proof.
  repeat split; try reflexivity.
  vm_compute. discriminate.
Qed.

(** [C2], amended: for a title that, once the characters outside
    [[A-Za-z0-9\s\-_]] are removed, has no whitespace at either end, the
    derived filename is the title with those characters removed and
    every run of whitespace collapsed to one underscore (trimming finds
    nothing to remove), followed by the extension after the last ['.']
    of the object name (the basename of the reference, or the whole
    reference when that basename is empty), or [.zip] when the object
    name has no ['.']; ["My Cool App!"] with ["abc123.zip"] gives
    ["My_Cool_App.zip"]. Titles that keep whitespace at an end are left
    out. *)
Theorem derived_filename_spec (title fileRef : jsstring) :
  trim (spec_strip title) = spec_strip title ->
  downloadFilename title fileRef
  = spec_sanitize title ++ spec_extension (object_name fileRef)
  /\ downloadFilename (lit "My Cool App!") (lit "abc123.zip")
     = lit "My_Cool_App.zip".
Proof.
  intros Hends. split; [|reflexivity].
  unfold downloadFilename.
  rewrite (sanitizedTitle_spec title Hends).
  rewrite filename_object_name, fileExtension_spec.
  reflexivity.
Qed.

Lemma derived_filename_spec_witness :
  trim (spec_strip (lit "Release notes (v2)"))
  = spec_strip (lit "Release notes (v2)")
  /\ downloadFilename (lit "Release notes (v2)")
       (lit "https://cdn.example/files/notes.v2.pdf")
     = spec_sanitize (lit "Release notes (v2)")
       ++ spec_extension
            (object_name (lit "https://cdn.example/files/notes.v2.pdf")).
Proof.
  split; [reflexivity|].
  apply (derived_filename_spec (lit "Release notes (v2)")
           (lit "https://cdn.example/files/notes.v2.pdf")).
  reflexivity.
Defined.

(** [C3] the code gives ["_multi_space_name.zip"] for the title
    ["  multi   space  name"] and the reference ["x"]: the leading run of
    spaces has become an underscore before [trim] runs, so the result is
    not ["multi_space_name.zip"]. *)
Theorem multi_space_name_keeps_leading_underscore :
  downloadFilename (lit "  multi   space  name") (lit "x")
  = lit "_multi_space_name.zip"
  /\ downloadFilename (lit "  multi   space  name") (lit "x")
     <> lit "multi_space_name.zip".
Proof.
  split; [reflexivity|]. vm_compute. discriminate.
Qed.

(** ** The delivery orchestrator *)

(** Evaluate the control flow of an attempt, leaving strings alone. *)
Ltac attempt_steps :=
  cbn [bind ret emit throw try_catch try_finally perform trace
       await_createSignedUrl await_fetch fst snd app negb
       createSignedUrl fetch blob saveBlob anchorClick locationHref
       ok status].

Ltac unfold_attempt :=
  unfold startDownload, guarded, deliver, cascade.

Lemma startDownload_no_file (product : Product) (w : World) :
  no_file product = true ->
  startDownload product w
  = (Normal tt,
     [SetIsDownloading true;
      Toast (lit "Download Failed") (lit "No file available for download")
        true;
      SetIsDownloading false]).
Proof.
  unfold no_file, startDownload, guarded. intros H.
  destruct (file_url product) as [url|].
  - apply negb_true_iff in H. rewrite H. reflexivity.
  - reflexivity.
Qed.

(** [C5] a product without a file reference: the attempt reports
    "No file available for download" at once; its whole trace is the two
    writes of [isDownloading] around the failure toast, so the storage
    collaborator is never called and no strategy runs. *)
Theorem missing_file_reported_without_calls
  (product : Product) (w : World) :
  no_file product = true ->
  trace (startDownload product w)
  = [SetIsDownloading true;
     Toast (lit "Download Failed") (lit "No file available for download")
       true;
     SetIsDownloading false]
  /\ calls (trace (startDownload product w)) = []
  /\ outcome (trace (startDownload product w))
     = Some (Failure (lit "No file available for download")).
Proof.
  intros H. rewrite (startDownload_no_file product w H).
  repeat split.
Qed.

Lemma missing_file_reported_without_calls_witness :
  no_file Demo.no_file_app = true
  /\ calls (trace (startDownload Demo.no_file_app Demo.all_fine)) = [].
Proof.
  split; [reflexivity|].
  apply (missing_file_reported_without_calls Demo.no_file_app Demo.all_fine).
  reflexivity.
Defined.

(** [C7] the storage collaborator answers with an error: the attempt
    stops there, no strategy call is made, and the reported reason is the
    collaborator's message behind the prefix "Storage error: ". *)
Theorem storage_error_is_terminal
  (product : Product) (w : World) (url message : jsstring) :
  file_url product = Some url ->
  truthy url = true ->
  createSignedUrl w = StorageError message ->
  trace (startDownload product w)
  = [SetIsDownloading true;
     Called (CreateSignedUrl (lit "product-files") (filename url) 3600);
     Toast (lit "Download Failed") (lit "Storage error: " ++ message) true;
     SetIsDownloading false]
  /\ filter is_strategy (calls (trace (startDownload product w))) = []
  /\ outcome (trace (startDownload product w))
     = Some (Failure (lit "Storage error: " ++ message)).
Proof.
  intros Hurl Htruthy Hstorage.
  assert (E : trace (startDownload product w)
    = [SetIsDownloading true;
       Called (CreateSignedUrl (lit "product-files") (filename url) 3600);
       Toast (lit "Download Failed") (lit "Storage error: " ++ message) true;
       SetIsDownloading false]).
  { unfold_attempt. rewrite Hurl, Htruthy. attempt_steps.
    rewrite Hstorage. attempt_steps. reflexivity. }
  rewrite E. repeat split.
Qed.

Lemma storage_error_is_terminal_witness :
  outcome (trace (startDownload Demo.app Demo.storage_down))
  = Some (Failure (lit "Storage error: Object not found")).
Proof.
  apply (storage_error_is_terminal Demo.app Demo.storage_down
           (lit "https://cdn.example/product-files/abc123.zip")
           (lit "Object not found")); reflexivity.
Defined.

Ltac anchor_tail :=
  eexists; (split; [reflexivity|]); (split; [reflexivity|]);
  intros Hanchor; try discriminate Hanchor; split; reflexivity.

(** [C6] the buffered fetch strategy fails (the fetch rejects, the
    status is not ok, or a later step of the strategy throws): the anchor
    strategy is attempted, after the fetch, with the signed URL that was
    fetched and the derived filename; nothing before it has marked the
    delivery complete; and when the anchor does not throw, the attempt
    ends by marking the delivery complete and reports success. *)
Theorem fetch_failure_falls_back_to_anchor
  (product : Product) (w : World) (url signedUrl : jsstring) :
  file_url product = Some url ->
  truthy url = true ->
  createSignedUrl w = StorageData (Some signedUrl) ->
  truthy signedUrl = true ->
  strategy1_fails w = true ->
  exists before rest,
    trace (startDownload product w)
    = SetIsDownloading true
      :: Called (CreateSignedUrl (lit "product-files") (filename url) 3600)
      :: Called (Fetch signedUrl)
      :: before
      ++ Called (AnchorClick signedUrl (downloadFilename (title product) url))
      :: rest
    /\ existsb writes_downloadComplete before = false
    /\ (anchorClick w = None ->
        rest = [SetDownloadCompleteTrue;
                Toast (lit "Download Started")
                  (title product ++ lit " download has been initiated")
                  false;
                SetIsDownloading false]
        /\ outcome (trace (startDownload product w)) = Some Success).
Proof.
  intros Hurl Htruthy Hstorage Hsigned Hfails.
  unfold_attempt. rewrite Hurl, Htruthy. attempt_steps.
  rewrite Hstorage. attempt_steps. rewrite Hsigned.
  unfold strategy1_fails in Hfails.
  destruct (fetch w) as [e|[[|] code]]; cbn [ok negb orb] in Hfails;
    attempt_steps.
  2: destruct (blob w) as [e3|]; cbn [throws orb] in Hfails; attempt_steps.
  3: destruct (saveBlob w) as [e4|]; [attempt_steps | discriminate].
  all: destruct (anchorClick w) as [e5|], (locationHref w) as [e6|];
    attempt_steps.
  all: first [ exists []; anchor_tail
             | eexists [_]; anchor_tail
             | eexists [_; _]; anchor_tail ].
Qed.

Lemma fetch_failure_falls_back_to_anchor_witness :
  strategy1_fails Demo.fetch_forbidden = true
  /\ exists before rest,
       trace (startDownload Demo.app Demo.fetch_forbidden)
       = SetIsDownloading true
         :: Called (CreateSignedUrl (lit "product-files")
                      (filename (lit "https://cdn.example/product-files/abc123.zip"))
                      3600)
         :: Called (Fetch (lit "https://signed.example/2"))
         :: before
         ++ Called (AnchorClick (lit "https://signed.example/2")
                      (downloadFilename (title Demo.app)
                         (lit "https://cdn.example/product-files/abc123.zip")))
         :: rest
       /\ existsb writes_downloadComplete before = false
       /\ (anchorClick Demo.fetch_forbidden = None ->
           rest = [SetDownloadCompleteTrue;
                   Toast (lit "Download Started")
                     (title Demo.app ++ lit " download has been initiated")
                     false;
                   SetIsDownloading false]
           /\ outcome (trace (startDownload Demo.app Demo.fetch_forbidden))
              = Some Success).
Proof.
  split; [reflexivity|].
  apply (fetch_failure_falls_back_to_anchor Demo.app Demo.fetch_forbidden
           (lit "https://cdn.example/product-files/abc123.zip")
           (lit "https://signed.example/2"));
    reflexivity.
Defined.

(** *** Facts that hold in every world *)

Ltac every_world product w :=
  destruct product as [? ? ? [[|? ?]|]];
  destruct w as [[?|?|[[|? ?]|]] [?|[[|] ?]] [?|] [?|] [?|] [?|]].

Lemma guarded_settles (product : Product) (w : World) :
  fst (guarded product w) = Normal tt.
Proof. every_world product w; reflexivity. Qed.

Lemma guarded_leaves_isDownloading (product : Product) (w : World) :
  existsb writes_isDownloading (trace (guarded product w)) = false.
Proof. every_world product w; reflexivity. Qed.

Lemma startDownload_trace (product : Product) (w : World) :
  startDownload product w
  = (Normal tt,
     SetIsDownloading true
       :: trace (guarded product w) ++ [SetIsDownloading false]).
Proof.
  unfold startDownload. pose proof (guarded_settles product w) as H.
  destruct (guarded product w) as [r t]. simpl in H. subst r.
  reflexivity.
Qed.

Lemma attempt_outcome_matches_flag (product : Product) (w : World) :
  outcome_matches_flag (trace (startDownload product w)) = true.
Proof. every_world product w; reflexivity. Qed.

Lemma existsb_false_not_In {A} (p : A -> bool) (l : list A) (x : A) :
  existsb p l = false -> p x = true -> ~ In x l.
Proof.
  intros H Hx Hin.
  assert (existsb p l = true) by (apply existsb_exists; eauto).
  congruence.
Qed.

Lemma existsb_writes_complete (t : list Effect) :
  existsb writes_downloadComplete t = true -> In SetDownloadCompleteTrue t.
Proof.
  intros H. apply existsb_exists in H as (e & Hin & He).
  destruct e; try discriminate. exact Hin.
Qed.

Lemma failure_never_completes (product : Product) (w : World) reason :
  outcome (trace (startDownload product w)) = Some (Failure reason) ->
  ~ In SetDownloadCompleteTrue (trace (startDownload product w)).
Proof.
  intros H. pose proof (attempt_outcome_matches_flag product w) as M.
  unfold outcome_matches_flag in M. rewrite H in M.
  apply negb_true_iff in M.
  eapply existsb_false_not_In; [exact M | reflexivity].
Qed.

Lemma success_completes (product : Product) (w : World) :
  outcome (trace (startDownload product w)) = Some Success ->
  In SetDownloadCompleteTrue (trace (startDownload product w)).
Proof.
  intros H. pose proof (attempt_outcome_matches_flag product w) as M.
  unfold outcome_matches_flag in M. rewrite H in M.
  apply existsb_writes_complete. exact M.
Qed.

(** Every strategy call of an attempt aims at the URL that the storage
    client issued during that same attempt. *)
Lemma strategies_use_issued_url (product : Product) (w : World) :
  forall k u, In k (calls (trace (startDownload product w))) ->
    url_of k = Some u -> createSignedUrl w = StorageData (Some u).
Proof.
  intros k u Hin Hu.
  every_world product w; cbn in Hin;
    repeat (destruct Hin as [<-|Hin]; [try discriminate|]);
    try contradiction;
    cbn in Hu; injection Hu as <-; reflexivity.
Qed.

(** The first call of an attempt on a product with a file is the request
    for a signed URL. *)
Lemma first_call_is_storage (product : Product) (w : World) url :
  file_url product = Some url -> truthy url = true ->
  exists rest,
    calls (trace (startDownload product w))
    = CreateSignedUrl (lit "product-files") (filename url) 3600 :: rest.
Proof.
  intros Hurl Htruthy.
  every_world product w; cbn in Hurl; try discriminate;
    injection Hurl as <-; try discriminate;
    eexists; reflexivity.
Qed.

(** ** The release gate *)

Ltac split_ifs :=
  repeat match goal with
         | |- context [if ?b then _ else _] => destruct b eqn:?
         end.

Ltac to_props :=
  repeat match goal with
         | H : (_ && _) = true |- _ => apply andb_true_iff in H as [? ?]
         | H : (_ && _) = false |- _ => apply andb_false_iff in H as [?|?]
         | H : (_ || _) = true |- _ => apply orb_true_iff in H as [?|?]
         | H : (_ || _) = false |- _ => apply orb_false_iff in H as [? ?]
         | H : negb _ = true |- _ => apply negb_true_iff in H
         | H : negb _ = false |- _ => apply negb_false_iff in H
         | H : (_ <? _) = true |- _ => apply Z.ltb_lt in H
         | H : (_ <? _) = false |- _ => apply Z.ltb_ge in H
         | H : (_ =? _) = true |- _ => apply Z.eqb_eq in H
         | H : (_ =? _) = false |- _ => apply Z.eqb_neq in H
         | H : eqb _ _ = true |- _ => apply eqb_prop in H
         | H : eqb _ _ = false |- _ => apply eqb_false_iff in H
         | H : ?x <> ?x |- _ => destruct (H eq_refl)
         end.

Lemma present_inv : Inv present.
Proof.
  unfold Inv, present. cbn -[Z.le Z.lt]. unfold startValue.
  split; [lia|]. split.
  - intros v H. injection H as <-. repeat split; (reflexivity || lia).
  - intros _ _ _. reflexivity.
Qed.

Lemma step_unmounted (c : Component) (ev : Event) :
  mounted c = false -> step c ev = (c, []).
Proof. intros H. unfold step. rewrite H. reflexivity. Qed.

Lemma run_unmounted (c : Component) (evs : list Event) :
  mounted c = false -> run c evs = (c, []).
Proof.
  intros H. induction evs as [|ev rest IH]; [reflexivity|].
  cbn [run]. rewrite (step_unmounted c ev H), IH. reflexivity.
Qed.

Lemma run_app (c : Component) (l1 l2 : list Event) :
  run c (l1 ++ l2)
  = (fst (run (fst (run c l1)) l2),
     snd (run c l1) ++ snd (run (fst (run c l1)) l2)).
Proof.
  revert c. induction l1 as [|ev rest IH]; intros c.
  - cbn. destruct (run c l2); reflexivity.
  - cbn [app run]. destruct (step c ev) as [c1 o1].
    rewrite IH. destruct (run c1 rest) as [c2 o2]. cbn [fst snd].
    rewrite app_assoc. reflexivity.
Qed.

(** One step in a reachable state: the invariant is kept; the countdown
    is unchanged or a tick took 1 off it while delivery had not
    completed; the effect calls [startDownload] exactly on the tick that
    takes the countdown from 1 to 0. *)
Lemma step_spec (c : Component) (ev : Event) :
  Inv c ->
  Inv (fst (step c ev))
  /\ (countdown (fst (step c ev)) = countdown c
      \/ (ev = TimerFired /\ downloadComplete c = false
          /\ countdown (fst (step c ev)) = countdown c - 1))
  /\ ((snd (step c ev) = [AutoTrigger] /\ ev = TimerFired
       /\ countdown c = 1 /\ countdown (fst (step c ev)) = 0)
      \/ (snd (step c ev) = []
          /\ (countdown (fst (step c ev)) = 0 -> countdown c = 0))).
Proof.
  unfold Inv, startValue.
  destruct c as [n dl dc [v|] m]; cbn [countdown isDownloading
    downloadComplete timer mounted]; intros (Hr & Ht & Hm).
  - destruct (Ht v eq_refl) as (-> & Hpos & -> & ->).
    destruct ev as [| |[b| | |]];
      unfold step, commit, effect, deps_changed, cleanup, set_timer,
        set_countdown, set_isDownloading, set_downloadComplete, set_mounted;
      cbn -[Z.le Z.lt]; split_ifs; to_props; cbn -[Z.le Z.lt];
      unfold startValue in *;
      repeat split; intros; try congruence; try lia;
      try (match goal with H : Some _ = Some _ |- _ =>
             injection H as <- end; lia);
      try (right; repeat split; (congruence || lia));
      try (left; repeat split; (congruence || lia));
      try tauto.
  - destruct ev as [| |[b| | |]];
      unfold step, commit, effect, deps_changed, cleanup, set_timer,
        set_countdown, set_isDownloading, set_downloadComplete, set_mounted;
      cbn -[Z.le Z.lt]; split_ifs; to_props; cbn -[Z.le Z.lt];
      unfold startValue in *;
      repeat split; intros; try congruence; try lia;
      try (match goal with H : Some _ = Some _ |- _ =>
             injection H as <- end; lia);
      try (right; repeat split; (congruence || lia));
      try (left; repeat split; (congruence || lia));
      try tauto.
Qed.

Lemma step_fired (c : Component) (ev : Event) :
  Inv c ->
  (fired_for c + length (snd (step c ev)))%nat = fired_for (fst (step c ev)).
Proof.
  intros HI. destruct (step_spec c ev HI) as (HI' & Hcd & Hout).
  destruct HI as ((Hlo & _) & _). destruct HI' as ((Hlo' & _) & _).
  unfold fired_for.
  destruct Hout as [(-> & _ & H1 & H0) | (-> & Hback)].
  - rewrite H1, H0. reflexivity.
  - cbn [length]. rewrite Nat.add_0_r.
    destruct (Z.eqb_spec (countdown c) 0) as [E|E];
      destruct (Z.eqb_spec (countdown (fst (step c ev))) 0) as [E'|E'];
      try reflexivity.
    + destruct Hcd as [Hcd | (_ & _ & Hcd)]; lia.
    + elim E. apply Hback, E'.
Qed.

Lemma run_inv (evs : list Event) :
  forall c, Inv c ->
    Inv (fst (run c evs))
    /\ (fired_for c + length (snd (run c evs)))%nat
       = fired_for (fst (run c evs)).
Proof.
  induction evs as [|ev rest IH]; intros c HI.
  - cbn. split; [exact HI | lia].
  - cbn [run]. pose proof (step_spec c ev HI) as (HI1 & _).
    pose proof (step_fired c ev HI) as Hf.
    destruct (step c ev) as [c1 o1]. cbn [fst snd] in *.
    destruct (IH c1 HI1) as (HI2 & Hf2).
    destruct (run c1 rest) as [c2 o2]. cbn [fst snd] in *.
    split; [exact HI2|]. rewrite length_app. lia.
Qed.

Lemma reachable_inv (evs : list Event) : Inv (state_after evs).
Proof. apply run_inv, present_inv. Qed.

Lemma reachable_fired (evs : list Event) :
  length (outputs_after evs) = fired_for (state_after evs).
Proof.
  destruct (run_inv evs present present_inv) as (_ & H). exact H.
Qed.

(** An undisturbed presentation: [k] ticks. *)
Lemma ticks_run (k : nat) :
  forall c, Inv c -> mounted c = true -> downloadComplete c = false ->
    let c' := fst (run c (repeat TimerFired k)) in
    countdown c' = Z.max 0 (countdown c - Z.of_nat k)
    /\ mounted c' = true /\ downloadComplete c' = false.
Proof.
  induction k as [|k IH]; intros c HI Hm Hdc.
  - cbn. destruct HI as ((Hlo & _) & _). repeat split; try assumption. lia.
  - cbn [repeat run].
    pose proof (step_spec c TimerFired HI) as (HI1 & _).
    assert (Hstep : countdown (fst (step c TimerFired))
                    = Z.max 0 (countdown c - 1)
                    /\ mounted (fst (step c TimerFired)) = true
                    /\ downloadComplete (fst (step c TimerFired)) = false).
    { destruct HI as ((Hlo & Hhi) & Ht & Hp).
      destruct (Z.ltb_spec 0 (countdown c)) as [Hpos|Hzero].
      - specialize (Hp Hm Hdc Hpos).
        unfold step, commit, effect, deps_changed, cleanup.
        rewrite Hm, Hp. cbn -[Z.le Z.lt Z.max Z.sub].
        rewrite Hdc. cbn -[Z.le Z.lt Z.max Z.sub].
        replace (countdown c =? countdown c - 1) with false
          by (symmetry; apply Z.eqb_neq; lia).
        cbn -[Z.le Z.lt Z.max Z.sub].
        split_ifs; cbn -[Z.le Z.lt Z.max Z.sub]; repeat split;
          try assumption; lia.
      - assert (Hnone : timer c = None).
        { destruct (timer c) as [v|] eqn:E; [|reflexivity].
          destruct (Ht v eq_refl) as (_ & Hpos & _). lia. }
        unfold step. rewrite Hm, Hnone. cbn -[Z.max].
        repeat split; try assumption. lia. }
    destruct Hstep as (Hcd & Hm1 & Hdc1).
    destruct (step c TimerFired) as [c1 o1]. cbn [fst snd] in *.
    destruct (IH c1 HI1 Hm1 Hdc1) as (Hcd2 & Hm2 & Hdc2).
    destruct (run c1 (repeat TimerFired k)) as [c2 o2]. cbn [fst snd] in *.
    repeat split; try assumption. lia.
Qed.

Lemma ticks_countdown (k : nat) :
  countdown (state_after (repeat TimerFired k))
  = Z.max 0 (startValue - Z.of_nat k).
Proof.
  destruct (ticks_run k present present_inv eq_refl eq_refl) as (H & _).
  exact H.
Qed.

(** [C1] for every presentation, whatever happens to it: the countdown
    stays between 0 and its initial value 30; an event leaves it alone
    unless it is a tick that finds delivery not completed, which takes
    exactly 1 off; such a tick happens whenever the component is mounted,
    waiting and above 0; [startDownload] is called by the effect exactly
    on the tick that takes the countdown from 1 to 0, so it has been
    called once when the countdown is 0 and never before; after [k]
    undisturbed ticks the countdown is [30 - k] (0 from the 30th on). *)
Theorem countdown_ticks_and_fires_once (evs : list Event) (ev : Event) :
  let c := state_after evs in
  let c' := fst (step c ev) in
  let fired := snd (step c ev) in
  0 <= countdown c <= startValue
  /\ (countdown c' = countdown c
      \/ (ev = TimerFired /\ downloadComplete c = false
          /\ countdown c' = countdown c - 1))
  /\ (mounted c = true /\ downloadComplete c = false /\ 0 < countdown c ->
      countdown (fst (step c TimerFired)) = countdown c - 1)
  /\ ((fired = [AutoTrigger] /\ ev = TimerFired
       /\ countdown c = 1 /\ countdown c' = 0)
      \/ (fired = [] /\ ~ (countdown c = 1 /\ countdown c' = 0)))
  /\ length (outputs_after evs)
     = (if countdown c =? 0 then 1%nat else 0%nat)
  /\ (forall k : nat,
        countdown (state_after (repeat TimerFired k))
        = Z.max 0 (startValue - Z.of_nat k)
        /\ length (outputs_after (repeat TimerFired k))
           = (if (30 <=? k)%nat then 1%nat else 0%nat)).
Proof.
  intros c c' fired. subst c c' fired.
  pose proof (reachable_inv evs) as HI.
  pose proof (step_spec (state_after evs) ev HI) as (HI' & Hcd & Hout).
  split; [apply HI|]. split; [exact Hcd|]. split.
  - intros (Hm & Hdc & Hpos).
    destruct (ticks_run 1 (state_after evs) HI Hm Hdc) as (H & _).
    cbn [repeat run] in H.
    destruct (step (state_after evs) TimerFired) as [c1 o1].
    cbn [fst] in *. rewrite H. lia.
  - split.
    + destruct Hout as [H | (Hnil & Hback)]; [left; exact H|].
      right. split; [exact Hnil|]. intros (H1 & H0).
      specialize (Hback H0). lia.
    + split; [apply reachable_fired|].
      intros k. split; [apply ticks_countdown|].
      rewrite reachable_fired. unfold fired_for.
      rewrite ticks_countdown. unfold startValue.
      destruct (Nat.leb_spec 30 k);
        destruct (Z.eqb_spec (Z.max 0 (30 - Z.of_nat k)) 0); lia.
Qed.

(** [C9] a presentation closed while the countdown is above 0: the
    pending timer is cleared, no later event changes the component, and
    the effect never calls [startDownload], neither before the close nor
    after it. *)
Theorem close_cancels_the_trigger (before after : list Event) :
  0 < countdown (state_after before) ->
  let closed := fst (step (state_after before) Close) in
  timer closed = None
  /\ mounted closed = false
  /\ run closed after = (closed, [])
  /\ outputs_after (before ++ Close :: after) = [].
Proof.
  intros Hpos closed.
  pose proof (reachable_inv before) as HI.
  assert (Hclosed : timer closed = None /\ mounted closed = false).
  { subst closed. unfold step.
    destruct (mounted (state_after before)) eqn:Hm; cbn.
    - split; reflexivity.
    - split; [|exact Hm].
      destruct (timer (state_after before)) as [v|] eqn:E; [|reflexivity].
      destruct HI as (_ & Ht & _).
      destruct (Ht v E) as (_ & _ & _ & Hm'). congruence. }
  destruct Hclosed as (Htimer & Hunmounted).
  split; [exact Htimer|]. split; [exact Hunmounted|].
  pose proof (run_unmounted closed after Hunmounted) as Hrun.
  split; [exact Hrun|].
  unfold outputs_after. rewrite run_app. cbn [snd run].
  assert (Hstep : snd (step (state_after before) Close) = []).
  { unfold step. destruct (mounted (state_after before)); reflexivity. }
  fold (state_after before). fold (outputs_after before).
  destruct (step (state_after before) Close) as [c1 o1] eqn:Es.
  cbn [fst snd] in *. subst closed o1. rewrite Hrun. cbn [app].
  rewrite app_nil_r.
  pose proof (reachable_fired before) as Hf. unfold fired_for in Hf.
  destruct (Z.eqb_spec (countdown (state_after before)) 0); [lia|].
  destruct (outputs_after before); [reflexivity | discriminate].
Qed.

Lemma close_cancels_the_trigger_witness :
  0 < countdown (state_after (repeat TimerFired 12))
  /\ outputs_after
       (repeat TimerFired 12 ++ Close :: repeat TimerFired 40) = [].
Proof.
  split; [reflexivity|].
  apply (close_cancels_the_trigger (repeat TimerFired 12)
           (repeat TimerFired 40)).
  reflexivity.
Defined.

(** ** Attempts seen from the component *)

(** What dispatching one effect of an attempt does to the component. *)
Lemma dispatch_fields (c : Component) (e : Effect) :
  let c' := fst (step c (Dispatch e)) in
  mounted c' = mounted c
  /\ countdown c' = countdown c
  /\ downloadComplete c'
     = downloadComplete c || (mounted c && writes_downloadComplete e)
  /\ isDownloading c'
     = match e with
       | SetIsDownloading b => if mounted c then b else isDownloading c
       | _ => isDownloading c
       end.
Proof.
  destruct c as [n dl dc t m]. destruct m, dc, e as [b| | |];
    unfold step, commit, effect, deps_changed, cleanup;
    cbn -[Z.ltb Z.eqb]; rewrite ?Z.eqb_refl; cbn -[Z.ltb Z.eqb];
    split_ifs; cbn; repeat split.
Qed.

Lemma dispatch_run (t : list Effect) :
  forall c,
    let c' := fst (run c (map Dispatch t)) in
    mounted c' = mounted c
    /\ downloadComplete c'
       = downloadComplete c || (mounted c && existsb writes_downloadComplete t).
Proof.
  induction t as [|e rest IH]; intros c.
  - cbn. rewrite andb_false_r, orb_false_r. split; reflexivity.
  - cbn [map run existsb].
    pose proof (dispatch_fields c e) as (Hm & _ & Hdc & _).
    destruct (step c (Dispatch e)) as [c1 o1]. cbn [fst] in *.
    specialize (IH c1). cbn zeta in IH. destruct IH as (Hm2 & Hdc2).
    destruct (run c1 (map Dispatch rest)) as [c2 o2]. cbn [fst] in *.
    split; [congruence|]. rewrite Hdc2, Hdc, Hm.
    destruct (downloadComplete c), (mounted c),
      (writes_downloadComplete e), (existsb writes_downloadComplete rest);
      reflexivity.
Qed.

Lemma settle_downloadComplete (c : Component) (product : Product)
  (w : World) :
  downloadComplete (settle c product w)
  = downloadComplete c
    || (mounted c
        && existsb writes_downloadComplete (trace (startDownload product w))).
Proof. apply (dispatch_run (trace (startDownload product w)) c). Qed.

Lemma run_single (c : Component) (ev : Event) :
  fst (run c [ev]) = fst (step c ev).
Proof. cbn [run]. destruct (step c ev); reflexivity. Qed.

Lemma settle_isDownloading (c : Component) (product : Product) (w : World) :
  isDownloading (settle c product w)
  = if mounted c then false else isDownloading c.
Proof.
  unfold settle. rewrite startDownload_trace. cbn [trace snd].
  change (SetIsDownloading true
            :: trace (guarded product w) ++ [SetIsDownloading false])
    with ((SetIsDownloading true :: trace (guarded product w))
            ++ [SetIsDownloading false]).
  rewrite map_app, run_app. cbn [fst].
  change (map Dispatch [SetIsDownloading false])
    with [Dispatch (SetIsDownloading false)].
  set (mid := fst (run c (map Dispatch
                 (SetIsDownloading true :: trace (guarded product w))))).
  assert (Hm : mounted mid = mounted c)
    by apply (dispatch_run (SetIsDownloading true
                              :: trace (guarded product w)) c).
  rewrite run_single.
  pose proof (dispatch_fields mid (SetIsDownloading false)) as (_ & _ & _ & H).
  cbv zeta in H. rewrite H, Hm.
  destruct (mounted c) eqn:E; [reflexivity|].
  subst mid. rewrite (run_unmounted c _ E). reflexivity.
Qed.

(** [C10] every invocation of [startDownload] settles normally; its
    first effect is [setIsDownloading(true)], its last is
    [setIsDownloading(false)], it does not write the flag in between, and
    this on every path; the (mounted) component therefore shows
    [isDownloading = true] after the first effect and [false] once the
    attempt has settled. *)
Theorem isDownloading_brackets_every_attempt
  (product : Product) (w : World) (c : Component) :
  fst (startDownload product w) = Normal tt
  /\ (exists middle,
        trace (startDownload product w)
        = SetIsDownloading true :: middle ++ [SetIsDownloading false]
        /\ existsb writes_isDownloading middle = false)
  /\ isDownloading (fst (step c (Dispatch (SetIsDownloading true))))
     = (if mounted c then true else isDownloading c)
  /\ isDownloading (settle c product w)
     = (if mounted c then false else isDownloading c).
Proof.
  split; [rewrite startDownload_trace; reflexivity|]. split.
  - exists (trace (guarded product w)). split.
    + rewrite startDownload_trace. reflexivity.
    + apply guarded_leaves_isDownloading.
  - split; [|apply settle_isDownloading].
    apply (dispatch_fields c (SetIsDownloading true)).
Qed.

(** [C4] a "download again" that fails: the flag was [true] before the
    attempt and is still [true] when the attempt has settled. *)
Lemma failed_download_again_stays_complete :
  let c := state_after Demo.first_success in
  mounted c = true
  /\ downloadComplete c = true
  /\ outcome (trace (startDownload Demo.app Demo.storage_down))
     = Some (Failure (lit "Storage error: Object not found"))
  /\ downloadComplete (settle c Demo.app Demo.storage_down) = true
  /\ downloadComplete (settle c Demo.app Demo.storage_down) <> false.
Proof.
  cbv zeta. repeat split; try reflexivity.
  vm_compute. discriminate.
Qed.

(** [C4], amended: an attempt that ends in a failure never writes the
    delivery-completed flag; when it settles the flag has the value it
    had before the attempt. *)
Theorem failed_attempt_leaves_flag
  (c : Component) (product : Product) (w : World) (reason : jsstring) :
  outcome (trace (startDownload product w)) = Some (Failure reason) ->
  ~ In SetDownloadCompleteTrue (trace (startDownload product w))
  /\ downloadComplete (settle c product w) = downloadComplete c.
Proof.
  intros Hfail. split; [eapply failure_never_completes; exact Hfail|].
  rewrite settle_downloadComplete.
  pose proof (attempt_outcome_matches_flag product w) as M.
  unfold outcome_matches_flag in M. rewrite Hfail in M.
  apply negb_true_iff in M. rewrite M, andb_false_r, orb_false_r.
  reflexivity.
Qed.

Lemma failed_attempt_leaves_flag_witness :
  outcome (trace (startDownload Demo.no_file_app Demo.all_fine))
  = Some (Failure (lit "No file available for download"))
  /\ downloadComplete (settle present Demo.no_file_app Demo.all_fine)
     = downloadComplete present.
Proof.
  split; [reflexivity|].
  apply (failed_attempt_leaves_flag present Demo.no_file_app Demo.all_fine
           (lit "No file available for download")).
  reflexivity.
Defined.

(** [C8] "download again" after a completed attempt: the second attempt
    starts by asking the storage collaborator for a signed URL, every
    URL its strategies use is the one issued in this second attempt, and
    when it succeeds it writes the delivery-completed flag, which is
    [true] once it has settled. *)
Theorem download_again_asks_for_a_fresh_link
  (c : Component) (product : Product) (w1 w2 : World) (url : jsstring) :
  file_url product = Some url ->
  truthy url = true ->
  mounted c = true ->
  outcome (trace (startDownload product w1)) = Some Success ->
  let first := trace (startDownload product w1) in
  let second := trace (startDownload product w2) in
  let c1 := settle c product w1 in
  downloadComplete c1 = true
  /\ (exists rest1 rest2,
        calls first
        = CreateSignedUrl (lit "product-files") (filename url) 3600 :: rest1
        /\ calls second
           = CreateSignedUrl (lit "product-files") (filename url) 3600
             :: rest2)
  /\ (forall k u, In k (calls second) -> url_of k = Some u ->
        createSignedUrl w2 = StorageData (Some u))
  /\ (outcome second = Some Success ->
      In SetDownloadCompleteTrue second
      /\ downloadComplete (settle c1 product w2) = true).
Proof.
  intros Hurl Htruthy Hm Hok first second c1. subst first second c1.
  split.
  - rewrite settle_downloadComplete, Hm.
    pose proof (attempt_outcome_matches_flag product w1) as M.
    unfold outcome_matches_flag in M. rewrite Hok in M. rewrite M.
    apply orb_true_r.
  - split.
    + destruct (first_call_is_storage product w1 url Hurl Htruthy) as (r1 & E1).
      destruct (first_call_is_storage product w2 url Hurl Htruthy) as (r2 & E2).
      exists r1, r2. split; assumption.
    + split; [apply strategies_use_issued_url|].
      intros Hok2. split; [apply success_completes; exact Hok2|].
      rewrite settle_downloadComplete.
      pose proof (attempt_outcome_matches_flag product w2) as M.
      unfold outcome_matches_flag in M. rewrite Hok2 in M. rewrite M.
      assert (Hm1 : mounted (settle c product w1) = true).
      { unfold settle.
        pose proof (dispatch_run (trace (startDownload product w1)) c) as H.
        cbn zeta in H. destruct H as (H & _). congruence. }
      rewrite Hm1. apply orb_true_r.
Qed.

Lemma download_again_asks_for_a_fresh_link_witness :
  outcome (trace (startDownload Demo.app Demo.all_fine)) = Some Success
  /\ downloadComplete
       (settle (settle (state_after (repeat TimerFired 30))
                  Demo.app Demo.all_fine)
          Demo.app Demo.fetch_forbidden) = true.
Proof.
  split; [reflexivity|].
  apply (download_again_asks_for_a_fresh_link
           (state_after (repeat TimerFired 30)) Demo.app
           Demo.all_fine Demo.fetch_forbidden
           (lit "https://cdn.example/product-files/abc123.zip"));
    reflexivity.
Defined.


(** ** More on names *)

Section NameFacts.
Import Observe.

Lemma allowed_not_space_safe (c : N) :
  allowed c = true -> is_space c = false -> safe c = true.
Proof.
  unfold allowed, safe. intros Ha Hs. rewrite Hs in Ha.
  destruct (in_range 97 122 c), (in_range 65 90 c), (in_range 48 57 c),
    (N.eqb c hyphen), (N.eqb c underscore); try reflexivity; discriminate.
Qed.

Ltac n_props :=
  repeat match goal with
         | H : (_ && _) = true |- _ => apply andb_true_iff in H as [? ?]
         | H : (_ || _) = true |- _ => apply orb_true_iff in H as [?|?]
         | H : N.leb _ _ = true |- _ => apply N.leb_le in H
         | H : N.eqb _ _ = true |- _ => apply N.eqb_eq in H
         end.

Lemma safe_allowed (c : N) : safe c = true -> allowed c = true.
Proof.
  unfold safe, allowed. intros H.
  destruct (in_range 97 122 c), (in_range 65 90 c), (in_range 48 57 c),
    (is_space c), (N.eqb c hyphen), (N.eqb c underscore);
    try reflexivity; discriminate.
Qed.

Lemma safe_not_space (c : N) : safe c = true -> is_space c = false.
Proof.
  intros H. destruct (is_space c) eqn:E; [|reflexivity]. exfalso.
  unfold safe, is_space, in_range, hyphen, underscore in *.
  n_props; lia.
Qed.

Lemma safe_not (c d : N) : safe c = true -> safe d = false -> c <> d.
Proof. intros Hc Hd ->. congruence. Qed.

Lemma collapse_safe (b : bool) (s : jsstring) :
  Forall (fun c => allowed c = true) s ->
  Forall (fun c => safe c = true) (spec_collapse b s).
Proof.
  intros H. revert b. induction H as [|c t Hc _ IH]; intros b; simpl.
  - constructor.
  - destruct (is_space c) eqn:E.
    + destruct b; [apply IH|]. constructor; [reflexivity | apply IH].
    + constructor; [apply allowed_not_space_safe; assumption | apply IH].
Qed.

Lemma collapse_length (b : bool) (s : jsstring) :
  (length (spec_collapse b s) <= length s)%nat.
Proof.
  revert b. induction s as [|c t IH]; intros b; simpl; [lia|].
  pose proof (IH true). pose proof (IH false).
  destruct (is_space c); [destruct b|]; simpl; lia.
Qed.

Lemma collapse_fixed (s : jsstring) :
  Forall (fun c => is_space c = false) s -> spec_collapse false s = s.
Proof.
  induction 1 as [|c t Hc _ IH]; simpl; [reflexivity|].
  rewrite Hc, IH. reflexivity.
Qed.

Lemma filter_fixed {A} (p : A -> bool) (l : list A) :
  Forall (fun x => p x = true) l -> filter p l = l.
Proof.
  induction 1 as [|x t Hx _ IH]; simpl; [reflexivity|].
  rewrite Hx, IH. reflexivity.
Qed.

Lemma sanitizedTitle_all_safe (title : jsstring) :
  Forall (fun c => safe c = true) (sanitizedTitle title).
Proof.
  rewrite sanitizedTitle_untrimmed. apply collapse_safe.
  unfold spec_strip. apply Forall_forall. intros c Hc.
  apply filter_In in Hc. apply Hc.
Qed.

(** [X1] the sanitized title consists of letters, digits, ['-'] and
    ['_'] only, and it is never longer than the title. *)
Theorem sanitized_title_is_safe (title : jsstring) :
  Forall (fun c => safe c = true) (sanitizedTitle title)
  /\ (length (sanitizedTitle title) <= length title)%nat.
Proof.
  split; [apply sanitizedTitle_all_safe|].
  rewrite sanitizedTitle_untrimmed.
  pose proof (collapse_length false (spec_strip title)).
  pose proof (filter_length_le allowed title). unfold spec_strip in *. lia.
Qed.

Lemma sanitizedTitle_fixed (s : jsstring) :
  Forall (fun c => safe c = true) s -> sanitizedTitle s = s.
Proof.
  intros H. rewrite sanitizedTitle_untrimmed. unfold spec_strip.
  rewrite filter_fixed.
  - apply collapse_fixed. eapply Forall_impl; [|exact H].
    intros c. apply safe_not_space.
  - eapply Forall_impl; [|exact H]. intros c. apply safe_allowed.
Qed.

(** [X2] sanitizing is idempotent: a title that is already a sanitized
    title is left as it is. *)
Theorem sanitized_title_idempotent (title : jsstring) :
  sanitizedTitle (sanitizedTitle title) = sanitizedTitle title.
Proof. apply sanitizedTitle_fixed, sanitizedTitle_all_safe. Qed.

End NameFacts.

Section SegmentFacts.
Import Observe.

Lemma includes_app (c : N) (a b : jsstring) :
  includes c (a ++ b) = includes c a || includes c b.
Proof. apply existsb_app. Qed.

Lemma includes_cons (c d : N) (s : jsstring) :
  includes c (d :: s) = N.eqb d c || includes c s.
Proof. unfold includes. cbn [existsb]. rewrite N.eqb_sym. reflexivity. Qed.

Lemma after_last_no_sep (sep : N) (s : jsstring) :
  includes sep (after_last sep s) = false.
Proof.
  induction s as [|c t IH]; [reflexivity|].
  cbn [after_last]. destruct (includes sep t) eqn:Ht; [exact IH|].
  destruct (N.eqb c sep) eqn:Hc; [exact Ht|].
  rewrite includes_cons, Hc, Ht. reflexivity.
Qed.

(** Where the separator occurs, the string is a prefix, the separator
    and what follows the last separator. *)
Lemma after_last_split (sep : N) (s : jsstring) :
  includes sep s = true -> exists pre, s = pre ++ sep :: after_last sep s.
Proof.
  induction s as [|c t IH]; [discriminate|].
  rewrite includes_cons. cbn [after_last].
  destruct (includes sep t) eqn:Ht.
  - intros _. destruct (IH eq_refl) as (pre & E).
    exists (c :: pre). cbn [app]. rewrite <- E. reflexivity.
  - rewrite orb_false_r. intros Hc. rewrite Hc.
    apply N.eqb_eq in Hc. subst c. exists []. reflexivity.
Qed.

Lemma after_last_suffix (sep : N) (s : jsstring) :
  exists pre, s = pre ++ after_last sep s.
Proof.
  destruct (includes sep s) eqn:H.
  - destruct (after_last_split sep s H) as (pre & E).
    exists (pre ++ [sep]). rewrite <- app_assoc. exact E.
  - exists []. rewrite (after_last_absent sep s H). reflexivity.
Qed.

Lemma after_last_app (sep : N) (a b : jsstring) :
  includes sep b = false -> after_last sep (a ++ sep :: b) = b.
Proof.
  intros Hb. induction a as [|c t IH]; cbn [app after_last].
  - rewrite Hb, N.eqb_refl. reflexivity.
  - rewrite includes_app, includes_cons, N.eqb_refl, orb_true_r.
    exact IH.
Qed.

Lemma pop_cons {A} (x y : A) (l : list A) : pop (x :: y :: l) = pop (y :: l).
Proof. reflexivity. Qed.

Lemma ends_with_includes (sep : N) (s : jsstring) :
  ends_with sep s = true -> includes sep s = true.
Proof.
  unfold ends_with. induction s as [|c t IH]; [discriminate|].
  destruct t as [|d u].
  - cbn [pop]. intros H. rewrite includes_cons, H. reflexivity.
  - rewrite pop_cons. intros H. rewrite includes_cons, (IH H).
    apply orb_true_r.
Qed.

Lemma ends_with_after_last (sep : N) (s : jsstring) :
  ends_with sep s = true -> after_last sep s = [].
Proof.
  induction s as [|c t IH]; [reflexivity|].
  destruct t as [|d u].
  - unfold ends_with. cbn [pop after_last includes existsb].
    intros H. rewrite H. reflexivity.
  - unfold ends_with in *. rewrite pop_cons. intros H.
    cbn [after_last]. fold (ends_with sep (d :: u)) in H.
    rewrite (ends_with_includes sep (d :: u) H). apply IH. exact H.
Qed.

Lemma after_last_nil (sep : N) (s : jsstring) :
  after_last sep s = [] -> s = [] \/ ends_with sep s = true.
Proof.
  induction s as [|c t IH]; [left; reflexivity|]. right.
  cbn [after_last] in H. destruct (includes sep t) eqn:Ht.
  - destruct (IH H) as [-> | He]; [discriminate|].
    destruct t as [|d u]; [discriminate|].
    unfold ends_with in *. rewrite pop_cons. exact He.
  - destruct (N.eqb c sep) eqn:Hc; [|discriminate].
    subst t. unfold ends_with. cbn [pop]. exact Hc.
Qed.

(** [X3] the extension always is a ['.'] followed by text without ['.']:
    the text after the last ['.'] of the name when the name has one,
    ["zip"] otherwise. *)
Theorem extension_is_last_dot_segment (name : jsstring) :
  exists e,
    fileExtension name = dot :: e
    /\ includes dot e = false
    /\ (includes dot name = true -> exists pre, name = pre ++ dot :: e)
    /\ (includes dot name = false -> e = lit "zip").
Proof.
  rewrite fileExtension_spec. unfold spec_extension.
  destruct (includes dot name) eqn:H.
  - exists (after_last dot name). split; [reflexivity|].
    split; [apply after_last_no_sep|].
    split; [intros _; apply after_last_split; exact H | discriminate].
  - exists (lit "zip"). repeat split; try reflexivity. discriminate.
Qed.

(** [X4] the object name asked of the storage is a suffix of
    [file_url]; it holds no ['/'] unless [file_url] ends in ['/'], in
    which case it is the whole [file_url]. *)
Theorem object_name_is_last_segment (file_url : jsstring) :
  (exists pre, file_url = pre ++ filename file_url)
  /\ (ends_with slash file_url = false ->
      includes slash (filename file_url) = false)
  /\ (ends_with slash file_url = true -> filename file_url = file_url).
Proof.
  rewrite filename_object_name. unfold object_name, spec_basename.
  destruct (after_last slash file_url) as [|c b] eqn:E.
  - split; [exists []; reflexivity|]. split; [|reflexivity].
    intros Hend. destruct (after_last_nil slash file_url E) as [-> | H];
      [reflexivity | congruence].
  - split; [rewrite <- E; apply after_last_suffix|].
    split.
    + intros _. rewrite <- E. apply after_last_no_sep.
    + intros Hend. rewrite (ends_with_after_last _ _ Hend) in E.
      discriminate.
Qed.

End SegmentFacts.

(** ** Names at upload and at download *)

Section UploadNames.
Import Observe Upload.

Lemma safe_excludes (c : N) (s : jsstring) :
  safe c = false -> Forall (fun d => safe d = true) s ->
  includes c s = false.
Proof.
  intros Hc H. induction H as [|d t Hd _ IH]; [reflexivity|].
  rewrite includes_cons, IH, orb_false_r.
  apply N.eqb_neq. intros ->. congruence.
Qed.

Lemma suffix_excludes (c : N) (pre s : jsstring) :
  includes c (pre ++ s) = false -> includes c s = false.
Proof.
  rewrite includes_app. intros H. apply orb_false_iff in H. apply H.
Qed.

Lemma fileExt_after_last (file : File) :
  render_opt (fileExt file) = after_last dot (name file).
Proof. unfold fileExt. rewrite pop_split. reflexivity. Qed.

Lemma sanitizedName_sanitizedTitle (customName : jsstring) :
  sanitizedName customName = sanitizedTitle customName.
Proof. reflexivity. Qed.

(** [X5] a product file uploaded under a title comes back under the
    same name: if the public URL is some prefix, ['/'] and the path the
    upload chose, then the download asks the storage for exactly that
    path, and suggests exactly that path as filename (the title being
    unchanged and the name of the uploaded file holding no ['/']). *)
Theorem download_names_match_upload
  (title : jsstring) (file : File) (rnd prefix : jsstring) :
  truthy title = true ->
  includes slash (name file) = false ->
  let path := fileName file (Some title) rnd in
  path = sanitizedTitle title ++ dot :: after_last dot (name file)
  /\ filename (prefix ++ slash :: path) = path
  /\ downloadFilename title (prefix ++ slash :: path) = path.
Proof.
  intros Htitle Hname path. subst path. unfold fileName.
  rewrite Htitle, fileExt_after_last, sanitizedName_sanitizedTitle.
  set (stem := sanitizedTitle title).
  set (ext := after_last dot (name file)).
  assert (Hstem : Forall (fun c => safe c = true) stem)
    by apply sanitizedTitle_all_safe.
  assert (Hext_dot : includes dot ext = false) by apply after_last_no_sep.
  assert (Hext_slash : includes slash ext = false).
  { destruct (after_last_suffix dot (name file)) as (pre & E).
    fold ext in E. rewrite E in Hname.
    eapply suffix_excludes. exact Hname. }
  assert (Hpath : includes slash (stem ++ dot :: ext) = false).
  { rewrite includes_app, includes_cons, Hext_slash.
    rewrite (safe_excludes slash stem eq_refl Hstem). reflexivity. }
  assert (Hfile : filename (prefix ++ slash :: stem ++ dot :: ext)
                  = stem ++ dot :: ext).
  { rewrite filename_object_name. unfold object_name, spec_basename.
    rewrite (after_last_app slash prefix _ Hpath).
    destruct stem; reflexivity. }
  split; [reflexivity|]. split; [exact Hfile|].
  unfold downloadFilename. rewrite Hfile. fold stem. f_equal.
  rewrite fileExtension_spec. unfold spec_extension.
  rewrite includes_app, includes_cons, N.eqb_refl, orb_true_r.
  rewrite (after_last_app dot stem ext Hext_dot). reflexivity.
Qed.

Lemma download_names_match_upload_witness :
  downloadFilename (lit "My Cool App!")
    (DemoForm.base ++ slash
       :: fileName DemoForm.archive (Some (lit "My Cool App!")) [])
  = fileName DemoForm.archive (Some (lit "My Cool App!")) [].
Proof.
  apply (download_names_match_upload (lit "My Cool App!") DemoForm.archive
           [] DemoForm.base); reflexivity.
Defined.

End UploadNames.

(** ** More on the delivery orchestrator *)

Section AttemptFacts.
Import Observe.

Lemma calls_come_first_prefix (pre : list Effect) :
  forall t c post,
    calls_come_first t = true -> t = pre ++ Called c :: post ->
    forallb silent pre = true.
Proof.
  induction pre as [|e pre' IH]; intros t c post Ht E; [reflexivity|].
  subst t. cbn [app calls_come_first] in Ht.
  apply andb_true_iff in Ht as (He & Hrest).
  rewrite existsb_app in He. cbn [existsb is_call] in He.
  rewrite orb_true_r in He. cbn [negb] in He. rewrite orb_false_r in He.
  cbn [forallb]. rewrite He. cbn [andb].
  eapply IH; [exact Hrest | reflexivity].
Qed.

Lemma silent_prefix (pre : list Effect) :
  forallb silent pre = true ->
  filter raises_toast pre = [] /\ ~ In (SetIsDownloading false) pre.
Proof.
  induction pre as [|e rest IH]; [intros _; split; [reflexivity | intros []]|].
  cbn [forallb]. intros H. apply andb_true_iff in H as (He & Hrest).
  destruct (IH Hrest) as (Hf & Hn). split.
  - destruct e as [b| | |]; try discriminate; cbn; exact Hf.
  - intros [->|Hin]; [discriminate | contradiction].
Qed.

(** [X6] an attempt whose awaited calls all answer (this is what a
    world describes) does not throw out of [startDownload] and raises
    exactly one toast; and up to any of its calls, so also for as long
    as an awaited call has not answered, no toast has been raised and
    [isDownloading] has not been cleared: an attempt that hangs on a
    call raises no toast at all. *)
Theorem every_attempt_raises_one_toast (product : Product) (w : World) :
  fst (startDownload product w) = Normal tt
  /\ length (filter raises_toast (trace (startDownload product w))) = 1%nat
  /\ outcome (trace (startDownload product w)) <> None
  /\ (forall pending c later,
        trace (startDownload product w) = pending ++ Called c :: later ->
        filter raises_toast pending = []
        /\ ~ In (SetIsDownloading false) pending).
Proof.
  split; [rewrite startDownload_trace; reflexivity|].
  split; [every_world product w; reflexivity|].
  split; [every_world product w; discriminate|].
  intros pending c later E. apply silent_prefix.
  apply (calls_come_first_prefix pending
           (trace (startDownload product w)) c later); [|exact E].
  clear E. every_world product w; reflexivity.
Qed.

(** [X7] the calls of an attempt follow one fixed order, each made at
    most once: signed URL, fetch, body, save, anchor, navigation. *)
Theorem calls_follow_the_cascade_order (product : Product) (w : World) :
  increasing (map rank (calls (trace (startDownload product w)))) = true.
Proof. every_world product w; reflexivity. Qed.

(** [X8] once an attempt has marked the delivery complete it makes no
    further call and does not mark it again: no strategy runs after one
    has completed. *)
Theorem nothing_runs_after_completion (product : Product) (w : World) :
  quiet_after_complete (trace (startDownload product w)) = true.
Proof. every_world product w; reflexivity. Qed.

(** [X9] the buffered fetch succeeds (response ok, body read, save
    triggered): the attempt consists of exactly these calls, marks the
    delivery complete and announces "Download Complete"; the anchor and
    the navigation are never used. *)
Theorem buffered_fetch_success
  (product : Product) (w : World) (url signedUrl : jsstring) :
  file_url product = Some url ->
  truthy url = true ->
  createSignedUrl w = StorageData (Some signedUrl) ->
  truthy signedUrl = true ->
  strategy1_fails w = false ->
  trace (startDownload product w)
  = [SetIsDownloading true;
     Called (CreateSignedUrl (lit "product-files") (filename url) 3600);
     Called (Fetch signedUrl);
     Called ResponseBlob;
     Called (SaveBlob (downloadFilename (title product) url));
     SetDownloadCompleteTrue;
     Toast (lit "Download Complete")
       (title product ++ lit " has been downloaded successfully") false;
     SetIsDownloading false].
Proof.
  intros Hurl Htruthy Hstorage Hsigned Hfine.
  unfold_attempt. rewrite Hurl, Htruthy. attempt_steps.
  rewrite Hstorage. attempt_steps. rewrite Hsigned.
  unfold strategy1_fails in Hfine.
  destruct (fetch w) as [e|[[|] code]]; cbn [ok negb orb] in Hfine;
    try discriminate.
  destruct (blob w) as [e3|]; cbn [throws orb] in Hfine; try discriminate.
  destruct (saveBlob w) as [e4|]; cbn [throws] in Hfine; try discriminate.
  reflexivity.
Qed.

Lemma buffered_fetch_success_witness :
  trace (startDownload Demo.app Demo.all_fine)
  = [SetIsDownloading true;
     Called (CreateSignedUrl (lit "product-files") (lit "abc123.zip") 3600);
     Called (Fetch (lit "https://signed.example/1"));
     Called ResponseBlob;
     Called (SaveBlob (lit "My_Cool_App.zip"));
     SetDownloadCompleteTrue;
     Toast (lit "Download Complete")
       (lit "My Cool App! has been downloaded successfully") false;
     SetIsDownloading false].
Proof.
  apply (buffered_fetch_success Demo.app Demo.all_fine
           (lit "https://cdn.example/product-files/abc123.zip")
           (lit "https://signed.example/1")); reflexivity.
Defined.

(** [X10] the storage client answers without an error but without a
    signed URL: the attempt fails with "Unable to create secure download
    link" and no strategy runs. *)
Theorem missing_link_is_terminal
  (product : Product) (w : World) (url : jsstring) :
  file_url product = Some url ->
  truthy url = true ->
  no_link (createSignedUrl w) = true ->
  trace (startDownload product w)
  = [SetIsDownloading true;
     Called (CreateSignedUrl (lit "product-files") (filename url) 3600);
     Toast (lit "Download Failed")
       (lit "Unable to create secure download link") true;
     SetIsDownloading false].
Proof.
  intros Hurl Htruthy Hlink.
  unfold_attempt. rewrite Hurl, Htruthy. attempt_steps.
  destruct (createSignedUrl w) as [e|m|[u|]]; cbn [no_link] in Hlink;
    try discriminate; attempt_steps; [|reflexivity].
  apply negb_true_iff in Hlink. rewrite Hlink. reflexivity.
Qed.

Lemma missing_link_is_terminal_witness :
  outcome (trace (startDownload Demo.app Demo.link_missing))
  = Some (Failure (lit "Unable to create secure download link")).
Proof.
  rewrite (missing_link_is_terminal Demo.app Demo.link_missing
             (lit "https://cdn.example/product-files/abc123.zip"));
    reflexivity.
Defined.

(** [X11] the request for a signed URL rejects (the promise itself
    fails): the attempt stops, no strategy runs, and the toast shows the
    thrown error's own message, without the storage prefix, or the
    generic text when what was thrown is not an [Error]. *)
Theorem rejected_link_request_is_reported
  (product : Product) (w : World) (url : jsstring) (e : Thrown) :
  file_url product = Some url ->
  truthy url = true ->
  createSignedUrl w = StorageRejects e ->
  trace (startDownload product w)
  = [SetIsDownloading true;
     Called (CreateSignedUrl (lit "product-files") (filename url) 3600);
     Toast (lit "Download Failed") (shown_message e) true;
     SetIsDownloading false].
Proof.
  intros Hurl Htruthy Hstorage.
  unfold_attempt. rewrite Hurl, Htruthy. attempt_steps.
  rewrite Hstorage. attempt_steps. reflexivity.
Qed.

Lemma rejected_link_request_is_reported_witness :
  outcome (trace (startDownload Demo.app Demo.offline))
  = Some (Failure (lit "Failed to fetch")).
Proof.
  rewrite (rejected_link_request_is_reported Demo.app Demo.offline
             (lit "https://cdn.example/product-files/abc123.zip")
             (ErrorObj (lit "Failed to fetch")));
    reflexivity.
Defined.

(** [X12] the anchor strategy throws after the buffered fetch has
    failed: the page is navigated to the same signed URL; if that does
    not throw the attempt marks the delivery complete and reports
    success, and if it throws the attempt fails with the thrown message
    and leaves the flag alone. *)
Theorem anchor_failure_falls_back_to_navigation
  (product : Product) (w : World) (url signedUrl : jsstring) (e : Thrown) :
  file_url product = Some url ->
  truthy url = true ->
  createSignedUrl w = StorageData (Some signedUrl) ->
  truthy signedUrl = true ->
  strategy1_fails w = true ->
  anchorClick w = Some e ->
  exists before,
    trace (startDownload product w)
    = SetIsDownloading true
      :: Called (CreateSignedUrl (lit "product-files") (filename url) 3600)
      :: Called (Fetch signedUrl)
      :: before
      ++ Called (AnchorClick signedUrl (downloadFilename (title product) url))
      :: Called (LocationHref signedUrl)
      :: match locationHref w with
         | None =>
             [SetDownloadCompleteTrue;
              Toast (lit "Download Started")
                (title product ++ lit " download has been initiated") false;
              SetIsDownloading false]
         | Some thrown =>
             [Toast (lit "Download Failed") (shown_message thrown) true;
              SetIsDownloading false]
         end
    /\ existsb writes_downloadComplete before = false.
Proof.
  intros Hurl Htruthy Hstorage Hsigned Hfails Hanchor.
  unfold_attempt. rewrite Hurl, Htruthy. attempt_steps.
  rewrite Hstorage. attempt_steps. rewrite Hsigned.
  unfold strategy1_fails in Hfails.
  destruct (fetch w) as [e1|[[|] code]]; cbn [ok negb orb] in Hfails;
    attempt_steps.
  2: destruct (blob w) as [e3|]; cbn [throws orb] in Hfails; attempt_steps.
  3: destruct (saveBlob w) as [e4|]; [attempt_steps | discriminate].
  all: rewrite Hanchor; destruct (locationHref w) as [e6|]; attempt_steps.
  all: first [ exists []; split; reflexivity
             | eexists [_]; split; reflexivity
             | eexists [_; _]; split; reflexivity ].
Qed.

Lemma anchor_failure_falls_back_to_navigation_witness :
  anchorClick Demo.anchor_broken = Some NonError
  /\ exists before,
       trace (startDownload Demo.app Demo.anchor_broken)
       = SetIsDownloading true
         :: Called (CreateSignedUrl (lit "product-files")
                      (filename
                         (lit "https://cdn.example/product-files/abc123.zip"))
                      3600)
         :: Called (Fetch (lit "https://signed.example/3"))
         :: before
         ++ Called (AnchorClick (lit "https://signed.example/3")
                      (downloadFilename (title Demo.app)
                         (lit "https://cdn.example/product-files/abc123.zip")))
         :: Called (LocationHref (lit "https://signed.example/3"))
         :: match locationHref Demo.anchor_broken with
            | None =>
                [SetDownloadCompleteTrue;
                 Toast (lit "Download Started")
                   (title Demo.app ++ lit " download has been initiated")
                   false;
                 SetIsDownloading false]
            | Some thrown =>
                [Toast (lit "Download Failed") (shown_message thrown) true;
                 SetIsDownloading false]
            end
       /\ existsb writes_downloadComplete before = false.
Proof.
  split; [reflexivity|].
  apply (anchor_failure_falls_back_to_navigation Demo.app
           Demo.anchor_broken
           (lit "https://cdn.example/product-files/abc123.zip")
           (lit "https://signed.example/3") NonError);
    reflexivity.
Defined.

End AttemptFacts.

(** ** More on the release gate *)

Section GateFacts.
Import Observe Render.

Lemma reachable_timer (evs : list Event) :
  timer (state_after evs)
  = if mounted (state_after evs)
       && negb (downloadComplete (state_after evs))
       && (0 <? countdown (state_after evs))
    then Some (countdown (state_after evs) - 1)
    else None.
Proof.
  destruct (reachable_inv evs) as (_ & Hsome & Hpending).
  set (c := state_after evs) in *.
  destruct (mounted c) eqn:Hm, (downloadComplete c) eqn:Hdc,
    (Z.ltb_spec 0 (countdown c)) as [Hpos|Hzero]; cbn [andb negb];
    try (apply Hpending; (reflexivity || assumption));
    destruct (timer c) as [v|] eqn:Ht; try reflexivity;
    destruct (Hsome v eq_refl) as (_ & Hpos' & Hdc' & Hm');
    try congruence; lia.
Qed.

(** [X13] in every reachable state a timer is pending exactly when the
    component is mounted, the delivery is not complete and the
    countdown is above 0, and the pending timer carries the countdown
    minus 1: there is never a stray timer. *)
Theorem timer_pending_exactly_while_waiting (evs : list Event) :
  let c := state_after evs in
  timer c
  = if mounted c && negb (downloadComplete c) && (0 <? countdown c)
    then Some (countdown c - 1)
    else None.
Proof. apply reachable_timer. Qed.

Lemma step_when_complete (c : Component) (ev : Event) :
  downloadComplete c = true -> timer c = None ->
  countdown (fst (step c ev)) = countdown c
  /\ downloadComplete (fst (step c ev)) = true
  /\ timer (fst (step c ev)) = None
  /\ snd (step c ev) = [].
Proof.
  destruct c as [n dl dc t m]. cbn [downloadComplete timer].
  intros -> ->.
  destruct m, ev as [| |[b| | |]];
    unfold step, commit, effect, deps_changed, cleanup;
    cbn -[Z.ltb Z.eqb]; rewrite ?Z.eqb_refl, ?andb_false_r;
    cbn -[Z.ltb Z.eqb]; repeat split.
Qed.

Lemma run_when_complete (evs : list Event) :
  forall c, downloadComplete c = true -> timer c = None ->
    countdown (fst (run c evs)) = countdown c
    /\ downloadComplete (fst (run c evs)) = true
    /\ timer (fst (run c evs)) = None
    /\ snd (run c evs) = [].
Proof.
  induction evs as [|ev rest IH]; intros c Hdc Ht.
  - cbn. repeat split; assumption.
  - cbn [run].
    destruct (step_when_complete c ev Hdc Ht) as (Hc1 & Hdc1 & Ht1 & Ho1).
    destruct (step c ev) as [c1 o1]. cbn [fst snd] in *.
    destruct (IH c1 Hdc1 Ht1) as (Hc2 & Hdc2 & Ht2 & Ho2).
    destruct (run c1 rest) as [c2 o2]. cbn [fst snd] in *.
    subst o1 o2. repeat split; try assumption. congruence.
Qed.

(** [X14] completion is final: once the delivery is marked complete,
    whatever happens next (ticks, further attempts that succeed or fail,
    a close) the flag stays set, the countdown no longer moves, no timer
    is set and the effect never calls [startDownload] again. *)
Theorem completion_is_final (before after : list Event) :
  downloadComplete (state_after before) = true ->
  countdown (state_after (before ++ after)) = countdown (state_after before)
  /\ downloadComplete (state_after (before ++ after)) = true
  /\ timer (state_after (before ++ after)) = None
  /\ outputs_after (before ++ after) = outputs_after before.
Proof.
  intros Hdc.
  assert (Ht : timer (state_after before) = None).
  { rewrite reachable_timer, Hdc, andb_false_r. reflexivity. }
  destruct (run_when_complete after (state_after before) Hdc Ht)
    as (Hc & Hd & Htm & Ho).
  unfold state_after, outputs_after in *. rewrite run_app. cbn [fst snd].
  rewrite Ho, app_nil_r. repeat split; assumption.
Qed.

Lemma completion_is_final_witness :
  downloadComplete (state_after Demo.first_success) = true
  /\ outputs_after
       (Demo.first_success
          ++ map Dispatch (trace (startDownload Demo.app Demo.storage_down))
          ++ repeat TimerFired 5)
     = outputs_after Demo.first_success.
Proof.
  split; [reflexivity|].
  apply (completion_is_final Demo.first_success
           (map Dispatch (trace (startDownload Demo.app Demo.storage_down))
              ++ repeat TimerFired 5)).
  reflexivity.
Defined.

Lemma settle_reachable (product : Product) (w : World) :
  settle at_zero product w
  = state_after (repeat TimerFired 30
                   ++ map Dispatch (trace (startDownload product w))).
Proof.
  unfold settle, at_zero, state_after. rewrite run_app. reflexivity.
Qed.

Lemma dispatch_run_countdown (t : list Effect) :
  forall c, countdown (fst (run c (map Dispatch t))) = countdown c.
Proof.
  induction t as [|e rest IH]; intros c; [reflexivity|].
  cbn [map run].
  pose proof (dispatch_fields c e) as (_ & Hc & _).
  destruct (step c (Dispatch e)) as [c1 o1]. cbn [fst] in *.
  specialize (IH c1). destruct (run c1 (map Dispatch rest)) as [c2 o2].
  cbn [fst] in *. congruence.
Qed.

Lemma idle_ticks (k : nat) (c : Component) :
  timer c = None -> run c (repeat TimerFired k) = (c, []).
Proof.
  intros Ht. induction k as [|k IH]; [reflexivity|].
  cbn [repeat run]. unfold step at 1. rewrite Ht.
  destruct (mounted c); cbn [negb]; rewrite IH; reflexivity.
Qed.

(** [X15] after the automatic attempt the card offers "Download Again"
    exactly when that attempt succeeded. *)
Theorem download_again_offered_after_success
  (product : Product) (w : World) :
  downloadAgainShown (render (settle at_zero product w))
  = match outcome (trace (startDownload product w)) with
    | Some Success => true
    | _ => false
    end.
Proof.
  cbn [render downloadAgainShown]. rewrite settle_downloadComplete.
  change (downloadComplete at_zero) with false.
  change (mounted at_zero) with true. cbn [orb andb].
  pose proof (attempt_outcome_matches_flag product w) as M.
  unfold outcome_matches_flag in M.
  destruct (outcome (trace (startDownload product w))) as [[|r]|];
    [exact M | apply negb_true_iff; exact M | discriminate].
Qed.

(** [X16] a failed automatic attempt cannot be retried: the component
    is left at 0, not complete, not downloading, with no timer pending
    and without the "Download Again" button, and further ticks neither
    change it nor start an attempt. *)
Theorem failed_automatic_attempt_is_a_dead_end
  (product : Product) (w : World) (reason : jsstring) (k : nat) :
  outcome (trace (startDownload product w)) = Some (Failure reason) ->
  let c := settle at_zero product w in
  countdown c = 0
  /\ downloadComplete c = false
  /\ isDownloading c = false
  /\ timer c = None
  /\ downloadAgainShown (render c) = false
  /\ run c (repeat TimerFired k) = (c, []).
Proof.
  intros Hfail c.
  assert (Hdc : downloadComplete c = false).
  { subst c. rewrite settle_downloadComplete.
    pose proof (attempt_outcome_matches_flag product w) as M.
    unfold outcome_matches_flag in M. rewrite Hfail in M.
    apply negb_true_iff in M. rewrite M. reflexivity. }
  assert (Hcd : countdown c = 0).
  { subst c. unfold settle. rewrite dispatch_run_countdown. reflexivity. }
  assert (Ht : timer c = None).
  { subst c. rewrite settle_reachable, reachable_timer.
    rewrite <- settle_reachable, Hcd. rewrite andb_false_r. reflexivity. }
  split; [exact Hcd|]. split; [exact Hdc|].
  split; [subst c; rewrite settle_isDownloading; reflexivity|].
  split; [exact Ht|].
  split; [cbn [render downloadAgainShown]; exact Hdc|].
  apply idle_ticks, Ht.
Qed.

Lemma failed_automatic_attempt_is_a_dead_end_witness :
  outcome (trace (startDownload Demo.app Demo.storage_down))
  = Some (Failure (lit "Storage error: Object not found"))
  /\ downloadAgainShown (render (settle at_zero Demo.app Demo.storage_down))
     = false.
Proof.
  split; [reflexivity|].
  apply (failed_automatic_attempt_is_a_dead_end Demo.app Demo.storage_down
           (lit "Storage error: Object not found") 0).
  reflexivity.
Defined.

End GateFacts.

(** ** The tag editor *)

Section TagFacts.
Import Observe Upload.

Lemma jsstring_eqb_eq (a b : jsstring) : jsstring_eqb a b = true <-> a = b.
Proof.
  unfold jsstring_eqb. destruct (list_eq_dec N.eq_dec a b); split;
    intros; (congruence || reflexivity || discriminate).
Qed.

Lemma tags_include_In (t : jsstring) (l : list jsstring) :
  tags_include t l = true <-> In t l.
Proof.
  unfold tags_include. rewrite existsb_exists. split.
  - intros (x & Hin & Heq). apply jsstring_eqb_eq in Heq. subst. exact Hin.
  - intros Hin. exists t. split; [exact Hin | apply jsstring_eqb_eq; reflexivity].
Qed.

Lemma dropWhile_no_lead {A} (p : A -> bool) (l : list A) :
  no_lead p (dropWhile p l).
Proof.
  induction l as [|x t IH]; simpl; [exact I|].
  destruct (p x) eqn:E; [exact IH | exact E].
Qed.

Lemma dropWhile_fixed {A} (p : A -> bool) (l : list A) :
  no_lead p l -> dropWhile p l = l.
Proof. destruct l as [|x t]; simpl; [reflexivity|]. intros ->. reflexivity. Qed.

Lemma dropWhile_suffix {A} (p : A -> bool) (l : list A) :
  exists pre, l = pre ++ dropWhile p l.
Proof.
  induction l as [|x t (pre & IH)]; simpl; [exists []; reflexivity|].
  destruct (p x); [|exists []; reflexivity].
  exists (x :: pre). simpl. rewrite <- IH. reflexivity.
Qed.

Lemma no_lead_prefix {A} (p : A -> bool) (a b : list A) :
  no_lead p (a ++ b) -> a <> [] -> no_lead p a.
Proof. destruct a; simpl; [congruence | auto]. Qed.

(** [trim] leaves a string without whitespace at either end. *)
Lemma trim_ends (s : jsstring) :
  no_lead is_space (trim s) /\ no_lead is_space (rev (trim s)).
Proof.
  unfold trim. set (a := dropWhile is_space s).
  set (b := dropWhile is_space (rev a)).
  assert (Ha : no_lead is_space a) by apply dropWhile_no_lead.
  assert (Hb : no_lead is_space b) by apply dropWhile_no_lead.
  split; [|rewrite rev_involutive; exact Hb].
  destruct (dropWhile_suffix is_space (rev a)) as (pre & E). fold b in E.
  assert (E' : a = rev b ++ rev pre).
  { rewrite <- rev_app_distr, <- E, rev_involutive. reflexivity. }
  destruct (rev b) as [|x r] eqn:R; [exact I|].
  rewrite E' in Ha. exact Ha.
Qed.

Lemma trim_fixed (s : jsstring) :
  no_lead is_space s -> no_lead is_space (rev s) -> trim s = s.
Proof.
  intros H1 H2. unfold trim.
  rewrite (dropWhile_fixed _ s H1), (dropWhile_fixed _ (rev s) H2).
  apply rev_involutive.
Qed.

Lemma trim_idempotent (s : jsstring) : trim (trim s) = trim s.
Proof. destruct (trim_ends s). apply trim_fixed; assumption. Qed.

Lemma dropWhile_all {A} (p : A -> bool) (l : list A) :
  Forall (fun x => p x = true) l -> dropWhile p l = [].
Proof. induction 1 as [|x t Hx _ IH]; simpl; [|rewrite Hx]; auto. Qed.

Lemma trim_blank (s : jsstring) :
  Forall (fun c => is_space c = true) s -> trim s = [].
Proof. intros H. unfold trim. rewrite (dropWhile_all _ s H). reflexivity. Qed.

Lemma addTag_ok (f : Form) :
  tags_ok (tags (formData f)) -> tags_ok (tags (formData (addTag f))).
Proof.
  intros (Hnd & Hall). unfold addTag.
  destruct (truthy (trim (newTag f))) eqn:Ht; [|split; assumption].
  destruct (tags_include (trim (newTag f)) (tags (formData f))) eqn:Hin;
    [split; assumption|].
  cbn. split.
  - apply NoDup_app; [exact Hnd | repeat constructor; intros [] |].
    intros a Ha [<-|[]].
    apply tags_include_In in Ha. congruence.
  - apply Forall_app. split; [exact Hall|].
    constructor; [|constructor]. split; [exact Ht | apply trim_idempotent].
Qed.

Lemma removeTag_ok (t : jsstring) (f : Form) :
  tags_ok (tags (formData f)) -> tags_ok (tags (formData (removeTag t f))).
Proof.
  intros (Hnd & Hall). cbn. split; [apply NoDup_filter; exact Hnd|].
  apply Forall_forall. intros x Hx. apply filter_In in Hx as (Hx & _).
  revert x Hx. apply Forall_forall. exact Hall.
Qed.

Lemma tag_run_ok (actions : list TagAction) :
  forall f, tags_ok (tags (formData f)) ->
    tags_ok (tags (formData (tag_run f actions))).
Proof.
  induction actions as [|a rest IH]; intros f H; [exact H|].
  cbn [tag_run fold_left]. apply IH.
  destruct a as [s| |t]; cbn [tag_step];
    [exact H | apply addTag_ok; exact H | apply removeTag_ok; exact H].
Qed.

(** [X17] whatever the admin types, adds and removes, starting from the
    empty form, the tag list never holds a tag twice, never holds an
    empty tag, and every tag is trimmed. *)
Theorem tags_stay_distinct_and_trimmed (actions : list TagAction) :
  tags_ok (tags (formData (tag_run initialForm actions))).
Proof.
  apply tag_run_ok. split; constructor.
Qed.

(** [X18] pressing add with a blank input (empty or only whitespace),
    or with a tag that is already there up to surrounding whitespace,
    changes nothing: the list is as before and the input is not
    cleared. *)
Theorem addTag_ignores_blank_and_known (f : Form) :
  Forall (fun c => is_space c = true) (newTag f)
  \/ In (trim (newTag f)) (tags (formData f)) ->
  addTag f = f.
Proof.
  intros [Hblank | Hknown]; unfold addTag.
  - rewrite (trim_blank _ Hblank). reflexivity.
  - apply tags_include_In in Hknown. rewrite Hknown, andb_false_r.
    reflexivity.
Qed.

Lemma addTag_ignores_blank_and_known_witness :
  addTag (set_newTag (lit "  tool ") DemoForm.filled)
  = set_newTag (lit "  tool ") DemoForm.filled.
Proof.
  apply (addTag_ignores_blank_and_known
           (set_newTag (lit "  tool ") DemoForm.filled)).
  right. cbn. left. reflexivity.
Defined.

Lemma filter_out_last (x : jsstring) (l : list jsstring) :
  ~ In x l ->
  filter (fun tag => negb (jsstring_eqb tag x)) (l ++ [x]) = l.
Proof.
  intros Hx. rewrite filter_app. cbn [filter].
  replace (jsstring_eqb x x) with true
    by (symmetry; apply jsstring_eqb_eq; reflexivity).
  cbn [negb]. rewrite app_nil_r. apply filter_fixed.
  apply Forall_forall. intros y Hy. apply negb_true_iff.
  destruct (jsstring_eqb y x) eqn:E; [|reflexivity].
  apply jsstring_eqb_eq in E. subst. contradiction.
Qed.

(** [X19] a new tag goes to the end of the list, trimmed, and the input
    is cleared; removing it again gives back the list as it was. *)
Theorem remove_undoes_add (f : Form) :
  truthy (trim (newTag f)) = true ->
  ~ In (trim (newTag f)) (tags (formData f)) ->
  tags (formData (addTag f)) = tags (formData f) ++ [trim (newTag f)]
  /\ newTag (addTag f) = []
  /\ tags (formData (removeTag (trim (newTag f)) (addTag f)))
     = tags (formData f).
Proof.
  intros Ht Hfresh. unfold addTag. rewrite Ht.
  destruct (tags_include (trim (newTag f)) (tags (formData f))) eqn:Hin.
  - apply tags_include_In in Hin. contradiction.
  - cbn. repeat split. apply filter_out_last. exact Hfresh.
Qed.

Lemma remove_undoes_add_witness :
  tags (formData (removeTag (lit "draft") (addTag DemoForm.filled)))
  = tags (formData DemoForm.filled).
Proof.
  apply (remove_undoes_add DemoForm.filled).
  - reflexivity.
  - cbn. intros [H|[]]. discriminate H.
Defined.

End TagFacts.

(** ** Submitting the upload form *)

Section SubmitFacts.
Import Observe Upload Submit.

Variable w : World.

Lemma fileName_custom (file : File) (c rnd rnd' : jsstring) :
  truthy c = true ->
  fileName file (Some c) rnd = fileName file (Some c) rnd'.
Proof. intros H. unfold fileName. rewrite H. reflexivity. Qed.

Lemma uploadFile_run (file : File) (bucket : jsstring)
  (customName : option jsstring) (k : Counters) :
  uploadFile w file bucket customName k
  = (finish_upload w
       {| to_bucket := bucket;
          to_path := fileName file customName (random w (draws k));
          index := sent k |},
     [UploadCall bucket (fileName file customName (random w (draws k))) file],
     {| draws := if has_custom_name customName then draws k
                 else S (draws k);
        sent := S (sent k) |}).
Proof.
  unfold uploadFile, begin_upload, bind, await, send_upload.
  destruct customName as [c|]; cbn [has_custom_name];
    [destruct (truthy c) eqn:Hc|]; unfold ret, math_random, fileName;
    rewrite ?Hc; destruct k; reflexivity.
Qed.

Lemma finish_upload_done (p : Pending) :
  is_done (finish_upload w p) = accepted w (index p).
Proof.
  unfold finish_upload, accepted.
  destruct (uploadReply w (index p)); reflexivity.
Qed.

Lemma begin_all_spec (bucket : jsstring) (files : list File) :
  forall k, exists ps tr k',
    begin_all w files bucket k = (Done ps, tr, k')
    /\ map index ps = seq (sent k) (length files)
    /\ forallb is_upload tr = true
    /\ length tr = length files.
Proof.
  induction files as [|file rest IH]; intros k.
  - exists [], [], k. repeat split.
  - cbn [begin_all]. unfold bind at 1.
    unfold begin_upload, bind, math_random, send_upload.
    cbn [has_custom_name draws sent].
    set (k1 := {| draws := S (draws k); sent := S (sent k) |}).
    destruct (IH k1) as (ps & tr & k' & E & Hidx & Hup & Hlen).
    unfold bind in E |- *. rewrite E. cbn.
    eexists _, _, _. split; [reflexivity|].
    cbn. rewrite app_nil_r, Hidx, Hup, Hlen. repeat split.
Qed.

Lemma earliest_rejection_none (ps : list Pending) :
  forall best,
    earliest_rejection w ps best = None
    <-> best = None /\ forallb (accepted w) (map index ps) = true.
Proof.
  induction ps as [|p rest IH]; intros best; cbn [earliest_rejection map forallb].
  - split; [intros ->; split; reflexivity | intros (-> & _); reflexivity].
  - rewrite <- finish_upload_done.
    destruct (finish_upload w p) as [u|e]; cbn [is_done andb].
    + apply IH.
    + rewrite IH. split; [|intros (_ & H); discriminate].
      intros (H & _). destruct best as [[r0 e0]|]; [|discriminate].
      destruct (settleRank w (index p) <? r0)%nat; discriminate.
Qed.

Lemma promise_all_done (ps : list Pending) :
  is_done (promise_all w ps) = forallb (accepted w) (map index ps).
Proof.
  unfold promise_all.
  destruct (earliest_rejection w ps None) as [[r e]|] eqn:E; cbn [is_done].
  - destruct (forallb (accepted w) (map index ps)) eqn:F; [|reflexivity].
    assert (H : earliest_rejection w ps None = None)
      by (apply earliest_rejection_none; split; [reflexivity | exact F]).
    congruence.
  - symmetry. apply earliest_rejection_none in E. apply E.
Qed.

Lemma finish_upload_refused (p : Pending) (e : Thrown) :
  finish_upload w p = Raise e -> refused w (index p) e.
Proof.
  unfold finish_upload, refused.
  destruct (uploadReply w (index p)) as [e'|e'|]; intros H;
    try discriminate; injection H as <-; reflexivity.
Qed.

Lemma earliest_rejection_from (ps : list Pending) :
  forall best r e,
    earliest_rejection w ps best = Some (r, e) ->
    best = Some (r, e)
    \/ exists p, In p ps /\ finish_upload w p = Raise e.
Proof.
  induction ps as [|p rest IH]; intros best r e; cbn [earliest_rejection].
  - auto.
  - destruct (finish_upload w p) as [u|e'] eqn:F.
    + intros H. destruct (IH _ _ _ H) as [->|(q & Hq & Fq)]; [auto|].
      right. exists q. split; [right; exact Hq | exact Fq].
    + intros H. destruct (IH _ _ _ H) as [Hb|(q & Hq & Fq)].
      * destruct best as [[r0 e0]|].
        -- destruct (settleRank w (index p) <? r0)%nat.
           ++ injection Hb as _ ->. right. exists p. split; [left|]; auto.
           ++ auto.
        -- injection Hb as _ ->. right. exists p. split; [left|]; auto.
      * right. exists q. split; [right; exact Hq | exact Fq].
Qed.

Lemma promise_all_raise (ps : list Pending) (e : Thrown) :
  promise_all w ps = Raise e ->
  exists i, In i (map index ps) /\ refused w i e.
Proof.
  unfold promise_all.
  destruct (earliest_rejection w ps None) as [[r e']|] eqn:E;
    [|discriminate].
  intros H. injection H as ->.
  destruct (earliest_rejection_from ps None r e E) as [H|(p & Hp & F)];
    [discriminate|].
  exists (index p). split; [apply in_map; exact Hp|].
  apply finish_upload_refused. exact F.
Qed.

Lemma upload_features_spec (files : list File) :
  forall k, exists r tr k',
    upload_features w files k = (r, tr, k')
    /\ forallb is_upload tr = true
    /\ length tr = length files
    /\ is_done r = forallb (accepted w) (seq (sent k) (length files))
    /\ (forall e, r = Raise e ->
          exists i, In i (seq (sent k) (length files)) /\ refused w i e).
Proof.
  intros k. destruct files as [|file rest].
  - exists (Done []), [], k. repeat split. discriminate.
  - unfold upload_features.
    destruct (begin_all_spec (lit "product-images") (file :: rest) k)
      as (ps & tr & k' & E & Hidx & Hup & Hlen).
    unfold bind. rewrite E. unfold await.
    eexists _, _, _. split; [reflexivity|].
    rewrite app_nil_r. split; [exact Hup|]. split; [exact Hlen|].
    split; [rewrite promise_all_done, Hidx; reflexivity|].
    intros e He. rewrite <- Hidx. apply promise_all_raise. exact He.
Qed.

Lemma upload_all_spec (f : Form) :
  exists r tr k',
    upload_all w f start = (r, tr, k')
    /\ forallb is_upload tr = true
    /\ length tr = uploads_sent w f
    /\ is_done r = all_accepted w (files_to_send f)
    /\ (forall urls, r = Done urls ->
          snd (fst urls)
          = match productFile f with
            | Some file =>
                publicUrl w (lit "product-files")
                  (fileName file (Some (title (formData f)))
                     (random w (chosen (imageFile f))))
            | None => []
            end)
    /\ (forall file, productFile f = Some file ->
          (chosen (imageFile f) = 1%nat -> accepted w 0 = true) ->
          In (UploadCall (lit "product-files")
                (fileName file (Some (title (formData f)))
                   (random w (chosen (imageFile f))))
                file) tr)
    /\ (forall e, r = Raise e ->
          exists i, (i < files_to_send f)%nat /\ refused w i e).
Proof.
  destruct f as [d nt [img|] [prod|] feats up];
    unfold upload_all, uploads_sent, files_to_send, all_accepted;
    cbn [imageFile productFile featureImages formData chosen
         Nat.add Nat.eqb andb seq forallb];
    unfold bind; cbn [ret app]; rewrite ?uploadFile_run;
    cbn [start draws sent has_custom_name ret app];
    rewrite ?uploadFile_run;
    cbn [start draws sent has_custom_name ret app].
  all: unfold finish_upload, refused; cbn [index to_bucket to_path].
  all: try change (accepted w 0)
         with (match uploadReply w 0 with ResolvesOk => true | _ => false end).
  all: try change (accepted w 1)
         with (match uploadReply w 1 with ResolvesOk => true | _ => false end).
  all: try destruct (uploadReply w 0) as [e0|e0|] eqn:R0.
  all: try destruct (uploadReply w 1) as [e1|e1|] eqn:R1.
  all: cbn [ret app].
  all: try match goal with
           | |- context [upload_features w ?l ?k] =>
               destruct (upload_features_spec l k)
                 as (rf & trf & kf & Ef & Hupf & Hlenf & Hdonef & Hraisef);
               rewrite Ef; destruct rf as [uf|ef]
           end.
  all: cbn [ret app negb andb is_done length forallb is_upload sent] in *.
  all: eexists _, _, _; (split; [reflexivity|]).
  all: cbn [app negb andb is_done length forallb is_upload fst snd].
  all: rewrite ?app_nil_r, ?Hupf, ?Hlenf.
  all: repeat split; try reflexivity; try (symmetry; assumption);
    try assumption.
  all: try (intros urls H;
            first [discriminate H | injection H as <-; reflexivity]).
  all: try (intros file H Hacc;
            first [ discriminate H
                  | injection H as <-;
                    first [ specialize (Hacc eq_refl); discriminate Hacc
                          | cbn [In]; auto ] ]).
  all: try (intros e H; first [discriminate H | injection H as <-];
            first [ solve [exists 0%nat; split;
                           [lia | rewrite R0; reflexivity]]
                  | solve [exists 1%nat; split;
                           [lia | rewrite R1; reflexivity]]
                  | destruct (Hraisef _ eq_refl) as (i & Hin & Href);
                    exists i; split;
                    [apply in_seq in Hin; unfold start in Hin;
                     cbn [sent] in Hin; lia
                    | exact Href] ]).
Qed.

Ltac after_uploads_cases :=
  try unfold thrown_after_uploads; try unfold after_uploads;
  destruct (insertReply w) as [[| |e]|e|];
    [| | | |destruct (callback w) as [[| |e]|]].

Lemma attempt_run (f : Form) r tr k' :
  upload_all w f start = (r, tr, k') ->
  attempt w f start = (ends_as (thrown_by w r), tr ++ tail_of w f r, k').
Proof.
  intros E. unfold attempt, tried, try_catch, bind. rewrite E.
  destruct r as [[[i u] fs]|[| |e]];
    [|cbn; rewrite ?app_nil_r; reflexivity ..].
  unfold save_and_reset, insert_row, bind, emit, raise, ret, report,
    tail_of, thrown_by, ends_as, error_toast, success_toast, reset_effects.
  after_uploads_cases; cbn; rewrite <- ?app_assoc, ?app_nil_r; reflexivity.
Qed.


Lemma submission_eq (f : Form) r tr k' :
  incomplete (formData f) = false ->
  upload_all w f start = (r, tr, k') ->
  handleSubmit w f start
  = (ends_as (thrown_by w r),
     PreventDefault :: SetUploading true
       :: (tr ++ tail_of w f r) ++ [SetUploading false],
     k').
Proof.
  intros Hvalid E. unfold handleSubmit. rewrite Hvalid.
  unfold bind, emit, try_finally. rewrite (attempt_run f r tr k' E).
  reflexivity.
Qed.

(** A trace of uploads holds nothing else. *)
Lemma uploads_only (tr : list FormEffect) :
  forallb is_upload tr = true ->
  filter is_upload tr = tr
  /\ filter is_toast tr = []
  /\ existsb is_insert tr = false
  /\ existsb is_callback tr = false
  /\ existsb writes_form tr = false
  /\ existsb writes_uploading tr = false
  /\ forall f, form_after f tr = f.
Proof.
  induction tr as [|e rest IH]; [repeat split|].
  cbn [forallb]. intros H. apply andb_true_iff in H as (He & Hrest).
  destruct (IH Hrest) as (H1 & H2 & H3 & H4 & H5 & H6 & H7).
  destruct e; try discriminate. cbn.
  rewrite H1, H2, H3, H4, H5, H6. repeat split. intros f. apply H7.
Qed.

Lemma form_after_app (f : Form) (a b : list FormEffect) :
  form_after f (a ++ b) = form_after (form_after f a) b.
Proof. apply fold_left_app. Qed.

(** [X20] a form without a title, or with neither a price nor the free
    switch, is turned away: the only effects are [preventDefault] and
    the "Please fill in all required fields" toast; nothing is uploaded
    or inserted and the form, its [uploading] flag included, is left as
    it is. *)
Theorem incomplete_form_is_turned_away (f : Form) :
  incomplete (formData f) = true ->
  handleSubmit w f start
  = (Done tt,
     [PreventDefault;
      FormToast (lit "Error") (lit "Please fill in all required fields")
        true],
     start)
  /\ form_after f (submission w f) = f.
Proof.
  intros H. unfold submission, handleSubmit. rewrite H.
  split; reflexivity.
Qed.


(** [X22] the row is inserted exactly when every file of the form was
    uploaded without error; the form is reset and [onProductUploaded]
    is called exactly when, moreover, the insert went through. *)
Theorem insert_needs_every_upload (f : Form) :
  incomplete (formData f) = false ->
  existsb is_insert (submission w f) = all_accepted w (files_to_send f)
  /\ existsb is_callback (submission w f)
     = all_accepted w (files_to_send f) && inserted w
  /\ existsb writes_form (submission w f)
     = all_accepted w (files_to_send f) && inserted w.
Proof.
  intros Hvalid.
  destruct (upload_all_spec f) as (r & tr & k' & E & Hup & _ & Hdone & _).
  unfold submission. rewrite (submission_eq f r tr k' Hvalid E).
  cbn [fst snd]. rewrite <- Hdone.
  destruct (uploads_only tr Hup) as (_ & _ & Hi & Hc & Hw & _ & _).
  cbn [existsb is_insert is_callback writes_form orb].
  rewrite !existsb_app, Hi, Hc, Hw. unfold inserted.
  destruct r as [urls|[| |e]]; cbn [tail_of is_done];
    try (repeat split; fail).
  after_uploads_cases; repeat split.
Qed.

(** [X23] when the submission has settled the form is either back to
    its initial, empty state (every upload and the insert went through)
    or exactly as the admin filled it, with [uploading] false: a failed
    submission loses no input. *)
Theorem failed_submission_keeps_the_input (f : Form) :
  incomplete (formData f) = false ->
  form_after f (submission w f)
  = if all_accepted w (files_to_send f) && inserted w
    then initialForm
    else set_uploading false f.
Proof.
  intros Hvalid.
  destruct (upload_all_spec f) as (r & tr & k' & E & Hup & _ & Hdone & _).
  unfold submission. rewrite (submission_eq f r tr k' Hvalid E).
  cbn [fst snd]. rewrite <- Hdone.
  destruct (uploads_only tr Hup) as (_ & _ & _ & _ & _ & _ & Hf).
  change (PreventDefault :: SetUploading true
            :: (tr ++ tail_of w f r) ++ [SetUploading false])
    with ([PreventDefault; SetUploading true]
            ++ (tr ++ tail_of w f r) ++ [SetUploading false]).
  rewrite !form_after_app, Hf. unfold inserted.
  destruct r as [urls|[| |e]]; cbn [tail_of is_done andb];
    try reflexivity.
  after_uploads_cases; reflexivity.
Qed.

(** [X24] the toasts of a submission. The [catch] block raises one
    error toast for what it caught, and none when that is [null] or
    [undefined] (it throws instead). So: when an upload fails, the
    toasts are those for the value thrown by an upload that failed;
    when all uploads went through and the insert fails, those for the
    insert's error; when the insert went through, the success toast,
    followed by those for what the [onProductUploaded] callback
    throws, if it throws. *)
Theorem toasts_of_a_submission (f : Form) :
  incomplete (formData f) = false ->
  (all_accepted w (files_to_send f) = false ->
   exists i e, (i < files_to_send f)%nat /\ refused w i e
               /\ filter is_toast (submission w f) = toast_for e)
  /\ (all_accepted w (files_to_send f) = true ->
      filter is_toast (submission w f)
      = match insertReply w with
        | Rejects e => toast_for e
        | ResolvesWithError e => [error_toast e]
        | ResolvesOk =>
            success_toast
              :: match callback w with
                 | Some e => toast_for e
                 | None => []
                 end
        end).
Proof.
  intros Hvalid.
  destruct (upload_all_spec f)
    as (r & tr & k' & E & Hup & _ & Hdone & _ & _ & Href).
  unfold submission. rewrite (submission_eq f r tr k' Hvalid E).
  cbn [fst snd]. rewrite <- Hdone.
  destruct (uploads_only tr Hup) as (_ & Ht & _).
  cbn [filter is_toast]. rewrite !filter_app, Ht.
  destruct r as [urls|e]; cbn [tail_of is_done]; split;
    try discriminate.
  - intros _. after_uploads_cases; reflexivity.
  - intros _. destruct (Href e eq_refl) as (i & Hi & Hr).
    exists i, e. split; [exact Hi|]. split; [exact Hr|].
    destruct e; reflexivity.
Qed.

(** [X25] how many uploads a submission sends: a refused image stops it
    after one upload, a refused product file stops it before the
    feature images, and the feature images are all sent, whether or not
    some of them are refused. *)
Theorem uploads_sent_by_a_submission (f : Form) :
  incomplete (formData f) = false ->
  length (filter is_upload (submission w f)) = uploads_sent w f.
Proof.
  intros Hvalid.
  destruct (upload_all_spec f) as (r & tr & k' & E & Hup & Hlen & _).
  unfold submission. rewrite (submission_eq f r tr k' Hvalid E).
  cbn [fst snd filter is_upload]. rewrite !filter_app.
  destruct (uploads_only tr Hup) as (Hu & _). rewrite Hu.
  rewrite !length_app, Hlen.
  destruct r as [urls|[| |e]]; cbn [tail_of]; try (cbn; lia).
  after_uploads_cases; cbn; lia.
Qed.

Lemma incomplete_title (f : Form) :
  incomplete (formData f) = false -> truthy (title (formData f)) = true.
Proof.
  unfold incomplete. intros H. apply orb_false_iff in H as (H & _).
  apply negb_false_iff. exact H.
Qed.

(** [X26] when every upload went through, the row that is inserted
    carries the title as typed, price 0 for a free product whatever the
    price field holds, and as [file_url] the public URL of the object
    the product file was stored under, namely the sanitized title, a
    ['.'] and the extension of the chosen file, in the bucket
    [product-files]; without a product file [file_url] is [null]. *)
Theorem inserted_row_points_at_the_upload (f : Form) :
  incomplete (formData f) = false ->
  all_accepted w (files_to_send f) = true ->
  (forall file, productFile f = Some file ->
     In (UploadCall (lit "product-files") (product_path f file) file)
        (submission w f))
  /\ exists row,
       In (InsertCall (lit "products") row) (submission w f)
       /\ row_title row = title (formData f)
       /\ row_price row
          = (if isFree (formData f) then PriceZero
             else ParseFloat (price (formData f)))
       /\ row_file_url row
          = match productFile f with
            | Some file =>
                or_null (publicUrl w (lit "product-files")
                           (product_path f file))
            | None => None
            end.
Proof.
  intros Hvalid Hall.
  pose proof (incomplete_title f Hvalid) as Htitle.
  destruct (upload_all_spec f)
    as (r & tr & k' & E & Hup & _ & Hdone & Hurl & Hin & _).
  unfold submission. rewrite (submission_eq f r tr k' Hvalid E).
  cbn [fst snd]. rewrite Hall in Hdone.
  destruct r as [urls|e]; [|discriminate]. cbn [tail_of].
  assert (Hpath : forall file rnd,
             fileName file (Some (title (formData f))) rnd
             = product_path f file).
  { intros file rnd. unfold fileName, product_path. rewrite Htitle.
    reflexivity. }
  split.
  - intros file Hfile. right. right. apply in_or_app. left.
    apply in_or_app. left.
    rewrite <- (Hpath file (random w (chosen (imageFile f)))).
    apply Hin; [exact Hfile|].
    intros Himg. unfold all_accepted, files_to_send in Hall.
    rewrite Himg in Hall. cbn in Hall.
    apply andb_true_iff in Hall. apply Hall.
  - eexists. split.
    + right. right. apply in_or_app. left. apply in_or_app. right.
      left. reflexivity.
    + cbn [row_of row_title row_price row_file_url].
      split; [reflexivity|]. split; [reflexivity|].
      rewrite (Hurl urls eq_refl).
      destruct (productFile f) as [file|]; [|reflexivity].
      rewrite Hpath. reflexivity.
Qed.

End SubmitFacts.

Section SubmitWitnesses.
Import Observe Upload Submit.

Lemma incomplete_form_is_turned_away_witness :
  incomplete (formData DemoForm.untitled) = true
  /\ form_after DemoForm.untitled
       (submission DemoForm.calm DemoForm.untitled)
     = DemoForm.untitled.
Proof.
  split; [reflexivity|].
  apply (incomplete_form_is_turned_away DemoForm.calm DemoForm.untitled).
  reflexivity.
Defined.


Lemma insert_needs_every_upload_witness :
  incomplete (formData DemoForm.filled) = false
  /\ existsb is_insert (submission DemoForm.refused DemoForm.filled)
     = all_accepted DemoForm.refused (files_to_send DemoForm.filled).
Proof.
  split; [reflexivity|].
  apply (insert_needs_every_upload DemoForm.refused DemoForm.filled).
  reflexivity.
Defined.

Lemma failed_submission_keeps_the_input_witness :
  incomplete (formData DemoForm.filled) = false
  /\ form_after DemoForm.filled
       (submission DemoForm.refused DemoForm.filled)
     = DemoForm.filled.
Proof.
  split; [reflexivity|].
  exact (failed_submission_keeps_the_input DemoForm.refused DemoForm.filled
           eq_refl).
Defined.

Lemma toasts_of_a_submission_witness :
  incomplete (formData DemoForm.filled) = false
  /\ filter is_toast (submission DemoForm.callback_throws DemoForm.filled)
     = [success_toast].
Proof.
  split; [reflexivity|].
  exact (proj2 (toasts_of_a_submission DemoForm.callback_throws
                  DemoForm.filled eq_refl)
           eq_refl).
Defined.

Lemma uploads_sent_by_a_submission_witness :
  incomplete (formData DemoForm.filled) = false
  /\ length (filter is_upload (submission DemoForm.refused DemoForm.filled))
     = 2%nat.
Proof.
  split; [reflexivity|].
  exact (uploads_sent_by_a_submission DemoForm.refused DemoForm.filled
           eq_refl).
Defined.

Lemma inserted_row_points_at_the_upload_witness :
  incomplete (formData DemoForm.filled) = false
  /\ all_accepted DemoForm.calm (files_to_send DemoForm.filled) = true
  /\ In (UploadCall (lit "product-files") (lit "My_Cool_App.zip")
           DemoForm.archive)
       (submission DemoForm.calm DemoForm.filled).
Proof.
  split; [reflexivity|]. split; [reflexivity|].
  exact (proj1 (inserted_row_points_at_the_upload DemoForm.calm
                  DemoForm.filled eq_refl eq_refl)
           DemoForm.archive eq_refl).
Defined.

End SubmitWitnesses.
